(** * The Poisson driver [main_cg_poisson.cpp]

    A shallow embedding of the driver that sets up the 3D Poisson problem
    on the unit cube and hands it to the CG solver, together with the
    properties of its stencil construction, right-hand side, argument
    handling and MPI call order.

    Conventions of the embedding.
    - [int] is [Z]; signed overflow (undefined in C++) is outside the model.
    - [double] is [R]: the development verifies the real-arithmetic reading
      of the driver, rounding is not modelled.  The properties stated are
      those that read the same in the binary64 arithmetic of the code;
      where a property of the reals fails there, [Binary64] embeds the
      same statements over binary64 numbers and evaluates them.
    - A [double*] array is a [list R]; an access outside the array
      (undefined in C++) stops the run with [Fault].
    - [throw] is the [Throw] case of [result]; an exception that leaves
      [main] and a call of [exit] end the run ([Uncaught], [Exit]).
    - The calls [main] makes are recorded, in program order, in a trace of
      [event]s.
    - What the headers [operations.hpp], [cg_solver.hpp] and [timer.hpp]
      declare is not part of the file: the driver is embedded over an
      environment [extern] that supplies it. *)

From Stdlib Require Import ZArith Reals Lra Lia List Ascii String Bool.
From Stdlib Require PrimFloat Uint63.
From stdpp Require Import base list.
Import ListNotations.

Local Open Scope Z_scope.

(** ** Results of calls that may throw *)

Inductive result (A : Type) : Type :=
| Ok (a : A)
| Throw (what : string).
Arguments Ok {A} a.
Arguments Throw {A} what.

(** ** Data of [operations.hpp] as the driver uses it *)

(** The fields of [decomp3d] that [main] reads. *)
Record decomp3d : Type := mk_decomp3d {
  npx : Z; npy : Z; npz : Z;
  nx_loc : Z; ny_loc : Z; nz_loc : Z
}.

(** [stencil3d]: the grid size, the seven coefficients and the
    decomposition.  [DD] is [None] in a stencil that [laplace3d_stencil]
    has just returned: the driver assigns it afterwards. *)
Record stencil3d : Type := mk_stencil3d {
  nx : Z; ny : Z; nz : Z;
  value_c : R;
  value_n : R; value_e : R; value_s : R; value_w : R;
  value_t : R; value_b : R;
  DD : option decomp3d
}.

Definition set_DD (L : stencil3d) (D : decomp3d) : stencil3d :=
  mk_stencil3d (nx L) (ny L) (nz L) (value_c L)
    (value_n L) (value_e L) (value_s L) (value_w L)
    (value_t L) (value_b L) (Some D).

(** ** Forcing term and boundary condition *)

(** [double f(double x, double y, double z)] *)
Definition f (x y z : R) : R :=
  (z * sin (2 * PI * x) * sin (PI * y) + 8 * z * z * z)%R.

(** [double g_0(double x, double y)]: boundary condition at z=0 *)
Definition g_0 (x y : R) : R :=
  (x * (1 - x) * y * (1 - y))%R.

(** ** The Laplace stencil *)

Definition stencil_too_small : string :=
  "need at least two grid points in each direction to implement boundary conditions.".

(** [stencil3d laplace3d_stencil(int nx, int ny, int nz)] *)
Definition laplace3d_stencil (nx ny nz : Z) : result stencil3d :=
  if (nx <=? 2) || (ny <=? 2) || (nz <=? 2) then Throw stencil_too_small
  else
    let dx := (1 / IZR (nx - 1))%R in
    let dy := (1 / IZR (ny - 1))%R in
    let dz := (1 / IZR (nz - 1))%R in
    Ok {| nx := nx; ny := ny; nz := nz;
          value_c := (2 / (dx * dx) + 2 / (dy * dy) + 2 / (dz * dz))%R;
          value_n := ((-1) / (dy * dy))%R;
          value_e := ((-1) / (dx * dx))%R;
          value_s := ((-1) / (dy * dy))%R;
          value_w := ((-1) / (dx * dx))%R;
          value_t := ((-1) / (dz * dz))%R;
          value_b := ((-1) / (dz * dz))%R;
          DD := None |}.

(** ** Arrays of [double] *)

(** Reading [b[idx]]; [None] outside the array. *)
Definition load (b : list R) (idx : Z) : option R :=
  if 0 <=? idx then b !! Z.to_nat idx else None.

(** Writing [b[idx] = v]; [None] outside the array. *)
Definition store (b : list R) (idx : Z) (v : R) : option (list R) :=
  if (0 <=? idx) && (idx <? Z.of_nat (length b))
  then Some (<[Z.to_nat idx := v]> b)
  else None.

(** [for (int i = from; i < from + count; i++) body], the body threading
    a state that an out-of-range access loses. *)
Fixpoint iterate {S : Type} (count : nat) (from : Z)
    (body : Z -> S -> option S) (s : S) : option S :=
  match count with
  | O => Some s
  | Datatypes.S c =>
      match body from s with
      | Some s' => iterate c (from + 1) body s'
      | None => None
      end
  end.

(** [for (int i=0; i<n; i++) body] *)
Definition for_loop {S : Type} (n : Z) (body : Z -> S -> option S) (s : S)
    : option S :=
  iterate (Z.to_nat n) 0 body s.

(** ** The right-hand side, as [main] builds it *)

(** The three nested loops that fill [b] with the forcing term
    ([idx] is [L.index_c], [forcing] is [f]).  The source shares the
    iterations of the outer loop among threads ([omp parallel for]); they
    write different cells, and the embedding runs them in order. *)
Definition rhs_init (forcing : R -> R -> R -> R) (idx : Z -> Z -> Z -> Z)
    (nx ny nz : Z) (dx dy dz : R) (b : list R) : option (list R) :=
  for_loop nz (fun k b =>
    let z := (IZR k * dz)%R in
    for_loop ny (fun j b =>
      let y := (IZR j * dy)%R in
      for_loop nx (fun i b =>
        let x := (IZR i * dx)%R in
        store b (idx i j k) (forcing x y z)) b) b) b.

(** The two nested loops of the Dirichlet condition at z=0:
    [b[L.index_c(i,j,0)] -= L.value_b*g_0(i*dx, j*dy)]. *)
Definition rhs_fold (idx : Z -> Z -> Z -> Z) (vb : R)
    (nx ny : Z) (dx dy : R) (b : list R) : option (list R) :=
  for_loop ny (fun j b =>
    for_loop nx (fun i b =>
      match load b (idx i j 0) with
      | Some old => store b (idx i j 0) (old - vb * g_0 (IZR i * dx) (IZR j * dy))%R
      | None => None
      end) b) b.

(** ** Runs of the program *)

Inductive out_item : Type :=
| Str (s : string)
| Int (z : Z).

(** The calls of [main] that are visible from outside. *)
Inductive event : Type :=
| MPI_Init
| MPI_Barrier
| MPI_Finalize
| cout (line : list out_item)
| cerr (line : list out_item)
| new_decomp3d (nx ny nz : Z)
| call_cg_solver (L : stencil3d) (n : Z) (x b : list R) (tol : R) (maxIter : Z)
| Timer_summarize.

(** How a run ends other than by [return]. *)
Inductive stop : Type :=
| Exit (code : Z)
| Uncaught (what : string)
| Fault.

(** A computation of [main]: the events issued so far and either the
    reason the run stopped or a value. *)
Definition prog (A : Type) : Type := (list event * (stop + A))%type.

Definition ret {A : Type} (a : A) : prog A := ([], inr a).

Definition bind {A B : Type} (m : prog A) (k : A -> prog B) : prog B :=
  match m with
  | (t, inl s) => (t, inl s)
  | (t, inr a) => let (t', r) := k a in (t ++ t', r)
  end.

Definition emit (e : event) : prog unit := ([e], inr tt).

Definition halt {A : Type} (s : stop) : prog A := ([], inl s).

(** A call whose exception nothing in [main] catches. *)
Definition propagate {A : Type} (r : result A) : prog A :=
  match r with
  | Ok a => ret a
  | Throw what => halt (Uncaught what)
  end.

(** An array computation inside [main]. *)
Definition checked {A : Type} (o : option A) : prog A :=
  match o with
  | Some a => ret a
  | None => halt Fault
  end.

Notation "x <- m ;; k" := (bind m (fun x => k))
  (at level 100, m at next level, right associativity).
Notation "m ;;; k" := (bind m (fun _ => k))
  (at level 100, right associativity).

Definition trace {A : Type} (p : prog A) : list event := fst p.
Definition outcome {A : Type} (p : prog A) : stop + A := snd p.

(** ** What the driver takes from outside *)

(** The collaborators of [main] that this file does not define: [atoi] of
    the C library, the identifiers [rank], [nproc] and [n] that [main]
    uses without declaring them, the constructor and the index map of
    [operations.hpp], and the solver of [cg_solver.hpp], which returns the
    solution, the residual norm and the iteration count, or throws a
    [std::exception]. *)
Record extern : Type := mk_extern {
  atoi : string -> Z;
  rank : Z;
  nproc : Z;
  n : Z;
  decomp3d_ctor : Z -> Z -> Z -> result decomp3d;
  index_c : stencil3d -> Z -> Z -> Z -> Z;
  cg_solver : stencil3d -> Z -> list R -> list R -> R -> Z
              -> result (list R * R * Z)
}.

(** Modelled from the spec: [init] of [operations.hpp], of which only the
    calls are in the driver; "sets every entry to scalar", here the first
    [n] entries of [v]. *)
Definition init (n : Z) (v : list R) (a : R) : list R :=
  replicate (Z.to_nat n) a ++ drop (Z.to_nat n) v.

(** [new double[n]]: a negative length throws; the content of the new
    array is indeterminate, and the driver overwrites all of it with
    [init] before it reads any. *)
Definition new_double (n : Z) : result (list R) :=
  if n <? 0 then Throw "std::bad_array_new_length"
  else Ok (replicate (Z.to_nat n) 0%R).

(** [std::numeric_limits<double>::epsilon()] *)
Definition epsilon : R := (/ 2 ^ 52)%R.

(** [catch(std::exception e)] copies the exception into its base class:
    [e.what()] is the text of [std::exception], not the thrown one. *)
Definition sliced_what : string := "std::exception".

Definition invalid_arguments : string :=
  "Invalid number of arguments (should be 0, 1 or 3)".

(** The grid size [main] takes from the command line, before the test of
    the signs of [ny] and [nz]. *)
Definition read_arguments (E : extern) (argv : list string)
    : prog (Z * Z * Z) :=
  let argc := Z.of_nat (length argv) in
  let arg (i : nat) := nth i argv EmptyString in
  if argc =? 1 then ret (128, 128, 128)
  else if argc =? 2 then
    let nx := atoi E (arg 1%nat) in ret (nx, nx, nx)
  else if argc =? 4 then
    ret (atoi E (arg 1%nat), atoi E (arg 2%nat), atoi E (arg 3%nat))
  else
    emit (cerr [Str invalid_arguments]) ;;; halt (Exit (-1)).

(** The grid size [main] works with: [if (ny<0) ny=nx; if (nz<0) nz=nx;]
    applied to what [read_arguments] gives. *)
Definition grid_size (E : extern) (argv : list string) : prog (Z * Z * Z) :=
  g <- read_arguments E argv ;;
  let '(nx, ny, nz) := g in
  let ny := if ny <? 0 then nx else ny in
  let nz := if nz <? 0 then nx else nz in
  ret (nx, ny, nz).

(** The three lines that the process of rank 0 prints. *)
Definition report_decomposition (rank : Z) (nx ny nz : Z) (D : decomp3d)
    : prog unit :=
  if rank =? 0
  then emit (cout [Str "Domain decomposition:"]) ;;;
       emit (cout [Str "Grid is           ["; Int nx; Str " x "; Int ny;
                   Str " x "; Int nz; Str "]"]) ;;;
       emit (cout [Str "Processor grid is ["; Int (npx D); Str " x ";
                   Int (npy D); Str " x "; Int (npz D); Str "]"])
  else ret tt.

(** The ordered printing: [for (int p=0; p<nproc; p++)] with one line of
    the process [p], the local grid size, and one barrier in each round. *)
Fixpoint ordered_printing (count : nat) (p : Z) (rank : Z) (D : decomp3d)
    : prog unit :=
  match count with
  | O => ret tt
  | Datatypes.S c =>
      (if rank =? p
       then emit (cout [Str "Local grid on P"; Int rank; Str ": [";
                        Int (nx_loc D); Str " x "; Int (ny_loc D);
                        Str " x "; Int (nz_loc D); Str "]"])
       else ret tt) ;;;
      emit MPI_Barrier ;;;
      ordered_printing c (p + 1) rank D
  end.

(** [int main(int argc, char* argv[])], [argc] being the length of
    [argv]. *)
Definition main (E : extern) (argv : list string) : prog Z :=
  emit MPI_Init ;;;
  g <- grid_size E argv ;;
  let '(nx, ny, nz) := g in
  emit (new_decomp3d nx ny nz) ;;;
  D <- propagate (decomp3d_ctor E nx ny nz) ;;
  report_decomposition (rank E) nx ny nz D ;;;
  ordered_printing (Z.to_nat (nproc E)) 0 (rank E) D ;;;
  let dx := (1 / IZR (nx - 1))%R in
  let dy := (1 / IZR (ny - 1))%R in
  let dz := (1 / IZR (nz - 1))%R in
  L <- propagate (laplace3d_stencil nx ny nz) ;;
  let L := set_DD L D in
  let nloc := nx_loc D * ny_loc D * nz_loc D in
  x <- propagate (new_double (n E)) ;;
  let x := init (n E) x 0 in
  b <- propagate (new_double (n E)) ;;
  let b := init (n E) b 0 in
  b <- checked (rhs_init f (index_c E L) nx ny nz dx dy dz b) ;;
  b <- checked (rhs_fold (index_c E L) (value_b L) nx ny dx dy b) ;;
  let maxIter := 500 in
  let tol := sqrt epsilon in
  emit (call_cg_solver L (n E) x b tol maxIter) ;;;
  match cg_solver E L (n E) x b tol maxIter with
  | Throw _ =>
      emit (cerr [Str "Caught an exception in cg_solve: "; Str sliced_what]) ;;;
      halt (Exit (-1))
  | Ok _ =>
      emit Timer_summarize ;;;
      emit MPI_Finalize ;;;
      ret 0
  end.

(** ** Grid points *)

(** The points [(i,j,k)] the loops of [main] visit. *)
Definition in_grid (nx ny nz i j k : Z) : Prop :=
  0 <= i < nx /\ 0 <= j < ny /\ 0 <= k < nz.

(** The points of the grid with a coordinate on the boundary of the unit
    cube. *)
Definition on_boundary (nx ny nz i j k : Z) : Prop :=
  i = 0 \/ i = nx - 1 \/ j = 0 \/ j = ny - 1 \/ k = 0 \/ k = nz - 1.

(** The points on a face other than z=0. *)
Definition on_other_face (nx ny nz i j k : Z) : Prop :=
  i = 0 \/ i = nx - 1 \/ j = 0 \/ j = ny - 1 \/ k = nz - 1.

(** What the loops need of the index map: every grid point has a cell of
    its own inside an array of [len] entries. *)
Record indexing (idx : Z -> Z -> Z -> Z) (nx ny nz len : Z) : Prop := {
  idx_range : forall i j k, in_grid nx ny nz i j k -> 0 <= idx i j k < len;
  idx_inj : forall i j k i' j' k',
      in_grid nx ny nz i j k -> in_grid nx ny nz i' j' k' ->
      idx i j k = idx i' j' k' -> i = i' /\ j = j' /\ k = k'
}.

(** The grid spacing of an axis with [m] points: [1.0/(m-1)]. *)
Definition spacing (m : Z) : R := (1 / IZR (m - 1))%R.

(** The events in which the solver is called. *)
Definition is_solve (e : event) : bool :=
  match e with
  | call_cg_solver _ _ _ _ _ _ => true
  | _ => false
  end.

(** The events that are, or may contain, calls of MPI: those of MPI
    itself and the calls into the headers. *)
Definition is_mpi (e : event) : bool :=
  match e with
  | MPI_Init | MPI_Barrier | MPI_Finalize => true
  | new_decomp3d _ _ _ | call_cg_solver _ _ _ _ _ _ | Timer_summarize => true
  | cout _ | cerr _ => false
  end.

(** The parameters the driver gives the solver. *)
Definition solver_parameters (e : event) : Prop :=
  match e with
  | call_cg_solver _ _ _ _ tol maxIter => tol = sqrt epsilon /\ maxIter = 500
  | _ => True
  end.

(** A run in which [MPI_Finalize] is called at most once, as the last
    call, and exactly then [main] returns. *)
Definition finalize_closes {A : Type} (p : prog A) : Prop :=
  exists pre,
    ~ In MPI_Finalize pre /\
    ((trace p = pre /\ exists s, outcome p = inl s) \/
     (trace p = pre ++ [MPI_Finalize] /\ exists a, outcome p = inr a)).

(** ** A run on one process *)

Module Sequential.

(** A decimal reader in the place of [atoi]: white space, a sign, digits. *)
Definition digit (c : Ascii.ascii) : option Z :=
  let v := Z.of_nat (Ascii.nat_of_ascii c) - 48 in
  if (0 <=? v) && (v <=? 9) then Some v else None.

Fixpoint digits (s : string) (acc : Z) : Z :=
  match s with
  | String c s' =>
      match digit c with
      | Some d => digits s' (10 * acc + d)
      | None => acc
      end
  | EmptyString => acc
  end.

Definition is_space (c : Ascii.ascii) : bool :=
  let v := Ascii.nat_of_ascii c in
  Nat.eqb v 32 || (Nat.leb 9 v && Nat.leb v 13).

Fixpoint skip_space (s : string) : string :=
  match s with
  | String c s' => if is_space c then skip_space s' else s
  | EmptyString => s
  end.

Definition atoi (s : string) : Z :=
  match skip_space s with
  | String "-"%char s' => - digits s' 0
  | String "+"%char s' => digits s' 0
  | s' => digits s' 0
  end.

(** One process that owns the whole grid. *)
Definition decomp3d_ctor (nx ny nz : Z) : result decomp3d :=
  Ok (mk_decomp3d 1 1 1 nx ny nz).

(** Modelled from the spec: [index_c] of [stencil3d], which
    [operations.hpp] holds; "local (i,j,k) -> linear index
    k*nx_loc*ny_loc + j*nx_loc + i". *)
Definition index_c (L : stencil3d) (i j k : Z) : Z :=
  match DD L with
  | Some D => k * nx_loc D * ny_loc D + j * nx_loc D + i
  | None => 0
  end.

(** A solver that returns the initial guess at once. *)
Definition cg_solver (L : stencil3d) (n : Z) (x b : list R) (tol : R)
    (maxIter : Z) : result (list R * R * Z) :=
  Ok (x, 0%R, 0).

(** The collaborators of a run on one process with [cells] unknowns. *)
Definition env (cells : Z) : extern :=
  mk_extern atoi 0 1 cells decomp3d_ctor index_c cg_solver.

End Sequential.

(** ** The state of an array during a sweep of the grid *)

(** The point [(i',j',k')] comes before [(i,j,k)] in the order of the
    loops: [k] outermost, [i] innermost. *)
Definition before (i j k i' j' k' : Z) : Prop :=
  k' < k \/ (k' = k /\ (j' < j \/ (j' = j /\ i' < i))).

(** A loop body that replaces the cell of its point by [upd] of the old
    value and leaves every other cell alone. *)
Definition cell_update (idx : Z -> Z -> Z -> Z) (upd : Z -> Z -> Z -> R -> R)
    (body : Z -> Z -> Z -> list R -> option (list R)) : Prop :=
  forall i j k b old,
    load b (idx i j k) = Some old ->
    exists b',
      body i j k b = Some b' /\
      length b' = length b /\
      load b' (idx i j k) = Some (upd i j k old) /\
      forall c, c <> idx i j k -> load b' c = load b c.

(** The array [b] when the loops, started on [b0], have visited the
    points of [done]. *)
Definition swept (idx : Z -> Z -> Z -> Z) (nx ny nz : Z)
    (upd : Z -> Z -> Z -> R -> R) (b0 : list R)
    (done : Z -> Z -> Z -> Prop) (b : list R) : Prop :=
  length b = length b0 /\
  forall i j k, in_grid nx ny nz i j k ->
    (done i j k ->
     load b (idx i j k) = option_map (upd i j k) (load b0 (idx i j k))) /\
    (~ done i j k -> load b (idx i j k) = load b0 (idx i j k)).

(** Two more runs on one process: one with a solver that throws, one
    with a decomposition that cannot be constructed. *)
Definition env_solver_throws (cells : Z) : extern :=
  mk_extern Sequential.atoi 0 1 cells Sequential.decomp3d_ctor
    Sequential.index_c (fun _ _ _ _ _ _ => Throw "no convergence").

Definition env_decomp_throws (cells : Z) : extern :=
  mk_extern Sequential.atoi 0 1 cells
    (fun _ _ _ => Throw "cannot distribute the grid")
    Sequential.index_c Sequential.cg_solver.

(** ** The boundary condition in binary64 *)

Module Binary64.
Import PrimFloat.

(** The conversion of an [int] to [double], exact on the range of [int]. *)
Definition of_int (z : Z) : float :=
  if z <? 0 then (- of_uint63 (Uint63.of_Z (- z)))%float
  else of_uint63 (Uint63.of_Z z).

(** [double g_0(double x, double y)] *)
Definition g_0 (x y : float) : float :=
  (x * (1.0 - x) * y * (1 - y))%float.

Record stencil3d : Type := mk_stencil3d {
  nx : Z; ny : Z; nz : Z;
  value_c : float;
  value_n : float; value_e : float; value_s : float; value_w : float;
  value_t : float; value_b : float;
  DD : option decomp3d
}.

(** [stencil3d laplace3d_stencil(int nx, int ny, int nz)] *)
Definition laplace3d_stencil (nx ny nz : Z) : result stencil3d :=
  if (nx <=? 2) || (ny <=? 2) || (nz <=? 2) then Throw stencil_too_small
  else
    let dx := (1.0 / of_int (nx - 1))%float in
    let dy := (1.0 / of_int (ny - 1))%float in
    let dz := (1.0 / of_int (nz - 1))%float in
    Ok {| nx := nx; ny := ny; nz := nz;
          value_c := (2.0 / (dx * dx) + 2.0 / (dy * dy) + 2.0 / (dz * dz))%float;
          value_n := ((-1.0) / (dy * dy))%float;
          value_e := ((-1.0) / (dx * dx))%float;
          value_s := ((-1.0) / (dy * dy))%float;
          value_w := ((-1.0) / (dx * dx))%float;
          value_t := ((-1.0) / (dz * dz))%float;
          value_b := ((-1.0) / (dz * dz))%float;
          DD := None |}.

(** Modelled from the spec: [index_c] of [stencil3d], which
    [operations.hpp] holds; "local (i,j,k) -> linear index
    k*nx_loc*ny_loc + j*nx_loc + i". *)
Definition index_c (D : decomp3d) (i j k : Z) : Z :=
  k * nx_loc D * ny_loc D + j * nx_loc D + i.

Definition load (b : list float) (idx : Z) : option float :=
  if 0 <=? idx then b !! Z.to_nat idx else None.

Definition store (b : list float) (idx : Z) (v : float)
    : option (list float) :=
  if (0 <=? idx) && (idx <? Z.of_nat (length b))
  then Some (<[Z.to_nat idx := v]> b)
  else None.

(** [b[L.index_c(i,j,0)] -= L.value_b*g_0(i*dx, j*dy)] for all [j], [i]. *)
Definition rhs_fold (idx : Z -> Z -> Z -> Z) (vb : float)
    (nx ny : Z) (dx dy : float) (b : list float) : option (list float) :=
  for_loop ny (fun j b =>
    for_loop nx (fun i b =>
      match load b (idx i j 0) with
      | Some old =>
          store b (idx i j 0) (old - vb * g_0 (of_int i * dx) (of_int j * dy))%float
      | None => None
      end) b) b.

(** The array after the boundary condition of [main] on a grid of
    [nx] x [ny] x [nz] points owned by one process, started on an array
    of zeros: what the layer [k = 0] holds before, the forcing term being
    zero there. *)
Definition folded (nx ny nz : Z) : option (list float) :=
  match laplace3d_stencil nx ny nz with
  | Ok L =>
      rhs_fold (index_c (mk_decomp3d 1 1 1 nx ny nz)) (value_b L) nx ny
        (1.0 / of_int (nx - 1))%float (1.0 / of_int (ny - 1))%float
        (replicate (Z.to_nat (nx * ny * nz)) 0%float)
  | Throw _ => None
  end.

(** The entry of the grid point [(i,j,k)] after the boundary condition. *)
Definition folded_entry (nx ny nz i j k : Z) : option float :=
  match folded nx ny nz with
  | Some b => load b (index_c (mk_decomp3d 1 1 1 nx ny nz) i j k)
  | None => None
  end.

End Binary64.

(** ** Counting the events of a run *)

Definition count_events (p : event -> bool) (t : list event) : nat :=
  length (List.filter p t).

Definition is_init (e : event) : bool :=
  match e with
  | MPI_Init => true
  | _ => false
  end.

Definition is_barrier (e : event) : bool :=
  match e with
  | MPI_Barrier => true
  | _ => false
  end.

Definition is_cout (e : event) : bool :=
  match e with
  | cout _ => true
  | _ => false
  end.

(** The statements of [main] from the construction of the stencil to the
    end, for the grid and the decomposition that the statements before
    them have produced. *)
Definition solve_on (E : extern) (nx ny nz : Z) (D : decomp3d) : prog Z :=
  let dx := (1 / IZR (nx - 1))%R in
  let dy := (1 / IZR (ny - 1))%R in
  let dz := (1 / IZR (nz - 1))%R in
  L <- propagate (laplace3d_stencil nx ny nz) ;;
  let L := set_DD L D in
  let nloc := nx_loc D * ny_loc D * nz_loc D in
  x <- propagate (new_double (n E)) ;;
  let x := init (n E) x 0 in
  b <- propagate (new_double (n E)) ;;
  let b := init (n E) b 0 in
  b <- checked (rhs_init f (index_c E L) nx ny nz dx dy dz b) ;;
  b <- checked (rhs_fold (index_c E L) (value_b L) nx ny dx dy b) ;;
  let maxIter := 500 in
  let tol := sqrt epsilon in
  emit (call_cg_solver L (n E) x b tol maxIter) ;;;
  match cg_solver E L (n E) x b tol maxIter with
  | Throw _ =>
      emit (cerr [Str "Caught an exception in cg_solve: "; Str sliced_what]) ;;;
      halt (Exit (-1))
  | Ok _ =>
      emit Timer_summarize ;;;
      emit MPI_Finalize ;;;
      ret 0
  end.

(** What [main] has issued when it comes to the stencil. *)
Definition setup_trace (E : extern) (nx ny nz : Z) (D : decomp3d)
    : list event :=
  [MPI_Init; new_decomp3d nx ny nz]
  ++ trace (report_decomposition (rank E) nx ny nz D)
  ++ trace (ordered_printing (Z.to_nat (nproc E)) 0 (rank E) D).

(** * Properties *)

(** ** Forcing term and boundary condition *)

Lemma g_0_west (y : R) : g_0 0 y = 0%R.
Proof. unfold g_0. ring. Qed.

Lemma g_0_south (x : R) : g_0 x 0 = 0%R.
Proof. unfold g_0. ring. Qed.

Lemma f_bottom (x y : R) : f x y 0 = 0%R.
Proof. unfold f. ring. Qed.

Lemma spacing_pos (m : Z) : 2 <= m -> (0 < spacing m)%R.
Proof.
  intros Hm. unfold spacing.
  assert (0 < IZR (m - 1))%R by (apply IZR_lt; lia).
  apply Rdiv_lt_0_compat; lra.
Qed.

(** ** The Laplace stencil *)

Lemma laplace3d_stencil_small (nx ny nz : Z) :
  nx <= 2 \/ ny <= 2 \/ nz <= 2 ->
  laplace3d_stencil nx ny nz = Throw stencil_too_small.
Proof.
  intros H. unfold laplace3d_stencil.
  destruct (nx <=? 2) eqn:Hx; [reflexivity|].
  destruct (ny <=? 2) eqn:Hy; [reflexivity|].
  destruct (nz <=? 2) eqn:Hz; [reflexivity|].
  lia.
Qed.

Lemma laplace3d_stencil_large (nx ny nz : Z) :
  3 <= nx -> 3 <= ny -> 3 <= nz ->
  laplace3d_stencil nx ny nz =
  Ok (mk_stencil3d nx ny nz
        (2 / (spacing nx * spacing nx) + 2 / (spacing ny * spacing ny)
         + 2 / (spacing nz * spacing nz))
        ((-1) / (spacing ny * spacing ny)) ((-1) / (spacing nx * spacing nx))
        ((-1) / (spacing ny * spacing ny)) ((-1) / (spacing nx * spacing nx))
        ((-1) / (spacing nz * spacing nz)) ((-1) / (spacing nz * spacing nz))
        None).
Proof.
  intros Hx Hy Hz. unfold laplace3d_stencil.
  destruct (Z.leb_spec nx 2); [lia|].
  destruct (Z.leb_spec ny 2); [lia|].
  destruct (Z.leb_spec nz 2); [lia|].
  reflexivity.
Qed.

Lemma reciprocal_square_pos (h : R) : (0 < h)%R -> (0 < 1 / (h * h))%R.
Proof.
  intros Hh. apply Rdiv_lt_0_compat; [lra|].
  apply Rmult_lt_0_compat; assumption.
Qed.

(** ** Arrays *)

Lemma load_in_range (b : list R) (idx : Z) :
  0 <= idx < Z.of_nat (length b) -> exists v, load b idx = Some v.
Proof.
  intros [Hlo Hhi]. unfold load.
  destruct (Z.leb_spec 0 idx); [|lia].
  destruct (lookup_lt_is_Some_2 b (Z.to_nat idx)) as [v Hv]; [lia|].
  exists v. exact Hv.
Qed.

Lemma load_Some_range (b : list R) (idx : Z) (v : R) :
  load b idx = Some v -> 0 <= idx < Z.of_nat (length b).
Proof.
  unfold load. destruct (Z.leb_spec 0 idx); [|discriminate].
  intros Hv. pose proof (lookup_lt_Some _ _ _ Hv). lia.
Qed.

Lemma store_in_range (b : list R) (idx : Z) (v : R) :
  0 <= idx < Z.of_nat (length b) ->
  store b idx v = Some (<[Z.to_nat idx := v]> b).
Proof.
  intros [Hlo Hhi]. unfold store.
  destruct (Z.leb_spec 0 idx); [|lia].
  destruct (Z.ltb_spec idx (Z.of_nat (length b))); [|lia].
  reflexivity.
Qed.

Lemma store_Some (b : list R) (idx : Z) (v : R) (b' : list R) :
  store b idx v = Some b' ->
  0 <= idx < Z.of_nat (length b) /\ b' = <[Z.to_nat idx := v]> b.
Proof.
  unfold store.
  destruct (Z.leb_spec 0 idx); [|discriminate].
  destruct (Z.ltb_spec idx (Z.of_nat (length b))); [|discriminate].
  simpl. intros [= <-]. split; [lia|reflexivity].
Qed.

Lemma load_store_same (b : list R) (idx : Z) (v : R) (b' : list R) :
  store b idx v = Some b' -> load b' idx = Some v.
Proof.
  intros H. apply store_Some in H as [[Hlo Hhi] ->]. unfold load.
  destruct (Z.leb_spec 0 idx); [|lia].
  apply list_lookup_insert_eq. lia.
Qed.

Lemma load_store_other (b : list R) (idx : Z) (v : R) (b' : list R) (c : Z) :
  store b idx v = Some b' -> c <> idx -> load b' c = load b c.
Proof.
  intros H Hc. apply store_Some in H as [[Hlo Hhi] ->]. unfold load.
  destruct (Z.leb_spec 0 c); [|reflexivity].
  apply list_lookup_insert_ne. lia.
Qed.

(** ** Loops *)

Lemma iterate_invariant {S : Type} (Inv : Z -> S -> Prop)
    (body : Z -> S -> option S) (count : nat) :
  forall (from : Z) (s : S),
    Inv from s ->
    (forall i s, from <= i < from + Z.of_nat count -> Inv i s ->
                 exists s', body i s = Some s' /\ Inv (i + 1) s') ->
    exists s', iterate count from body s = Some s'
               /\ Inv (from + Z.of_nat count) s'.
Proof.
  induction count as [|c IH]; intros from s H0 Hstep.
  - exists s. simpl. rewrite Z.add_0_r. split; [reflexivity|assumption].
  - destruct (Hstep from s) as (s1 & Hb & H1); [lia|assumption|].
    destruct (IH (from + 1) s1 H1) as (s2 & Hit & H2).
    { intros i t Hi. apply Hstep. lia. }
    exists s2. simpl. rewrite Hb. split; [exact Hit|].
    replace (from + Z.of_nat (Datatypes.S c)) with (from + 1 + Z.of_nat c) by lia.
    exact H2.
Qed.

Lemma for_loop_invariant {S : Type} (Inv : Z -> S -> Prop)
    (n : Z) (body : Z -> S -> option S) (s : S) :
  Inv 0 s ->
  (forall i s, 0 <= i < n -> Inv i s ->
               exists s', body i s = Some s' /\ Inv (i + 1) s') ->
  exists s', for_loop n body s = Some s' /\ Inv (Z.max 0 n) s'.
Proof.
  intros H0 Hstep. unfold for_loop.
  destruct (iterate_invariant Inv body (Z.to_nat n) 0 s H0) as (s' & Hit & Hinv).
  { intros i t Hi. apply Hstep. lia. }
  exists s'. split; [exact Hit|].
  replace (Z.max 0 n) with (0 + Z.of_nat (Z.to_nat n)) by lia. exact Hinv.
Qed.

(** ** Sweeps of the grid *)

Section Sweep.
Variable idx : Z -> Z -> Z -> Z.
Variables nx ny nz : Z.
Variable upd : Z -> Z -> Z -> R -> R.
Variable body : Z -> Z -> Z -> list R -> option (list R).
Variable b0 : list R.
Hypothesis Hidx : indexing idx nx ny nz (Z.of_nat (length b0)).
Hypothesis Hbody : cell_update idx upd body.

Lemma swept_start : swept idx nx ny nz upd b0 (before 0 0 0) b0.
Proof using Type.
  split; [reflexivity|].
  intros i j k (Hi & Hj & Hk). split; [|reflexivity].
  unfold before. lia.
Qed.

Lemma swept_ext (done done' : Z -> Z -> Z -> Prop) (b : list R) :
  (forall i j k, in_grid nx ny nz i j k -> done i j k <-> done' i j k) ->
  swept idx nx ny nz upd b0 done b -> swept idx nx ny nz upd b0 done' b.
Proof using Type.
  intros Hext [Hlen Hcells]. split; [exact Hlen|].
  intros i j k Hg. destruct (Hcells i j k Hg) as [Hd Hn].
  pose proof (Hext i j k Hg) as He.
  split; intros H; [apply Hd|apply Hn]; tauto.
Qed.

Lemma swept_step (i j k : Z) (b : list R) :
  in_grid nx ny nz i j k ->
  swept idx nx ny nz upd b0 (before i j k) b ->
  exists b', body i j k b = Some b'
             /\ swept idx nx ny nz upd b0 (before (i + 1) j k) b'.
Proof using Hidx Hbody.
  intros Hg [Hlen Hcells].
  destruct (load_in_range b0 (idx i j k)) as [old Hold].
  { apply (idx_range _ _ _ _ _ Hidx). exact Hg. }
  assert (Hcur : load b (idx i j k) = Some old).
  { rewrite <- Hold. apply (Hcells i j k Hg). unfold before. lia. }
  destruct (Hbody i j k b old Hcur) as (b' & Hrun & Hlen' & Hnew & Hframe).
  exists b'. split; [exact Hrun|]. split; [congruence|].
  intros i' j' k' Hg'.
  destruct (Z.eq_dec i' i) as [->|Hi];
    [destruct (Z.eq_dec j' j) as [->|Hj];
     [destruct (Z.eq_dec k' k) as [->|Hk]|]|].
  - split; [|unfold before; lia].
    intros _. rewrite Hnew, Hold. reflexivity.
  - rewrite Hframe.
    + destruct (Hcells i j k' Hg') as [Hd Hn].
      split; intros H; [apply Hd|apply Hn]; revert H; unfold before; lia.
    + intros Heq. apply (idx_inj _ _ _ _ _ Hidx) in Heq; [lia|assumption..].
  - rewrite Hframe.
    + destruct (Hcells i j' k' Hg') as [Hd Hn].
      split; intros H; [apply Hd|apply Hn]; revert H; unfold before; lia.
    + intros Heq. apply (idx_inj _ _ _ _ _ Hidx) in Heq; [lia|assumption..].
  - rewrite Hframe.
    + destruct (Hcells i' j' k' Hg') as [Hd Hn].
      split; intros H; [apply Hd|apply Hn]; revert H; unfold before; lia.
    + intros Heq. apply (idx_inj _ _ _ _ _ Hidx) in Heq; [lia|assumption..].
Qed.

(** The loop over [i]. *)
Lemma row_swept (j k : Z) (b : list R) :
  0 <= j < ny -> 0 <= k < nz ->
  swept idx nx ny nz upd b0 (before 0 j k) b ->
  exists b', for_loop nx (fun i b => body i j k b) b = Some b'
             /\ swept idx nx ny nz upd b0 (before 0 (j + 1) k) b'.
Proof using Hidx Hbody.
  intros Hj Hk H0.
  destruct (for_loop_invariant
              (fun i b => swept idx nx ny nz upd b0 (before i j k) b)
              nx (fun i b => body i j k b) b H0) as (b' & Hrun & Hend).
  { intros i t Hi Hinv. apply swept_step; [|exact Hinv].
    unfold in_grid. lia. }
  exists b'. split; [exact Hrun|].
  revert Hend. apply swept_ext.
  intros i' j' k' (Hi' & Hj' & Hk'). unfold before. lia.
Qed.

(** The loops over [j] and [i]. *)
Lemma plane_swept (k : Z) (b : list R) :
  0 <= k < nz ->
  swept idx nx ny nz upd b0 (before 0 0 k) b ->
  exists b',
    for_loop ny (fun j b => for_loop nx (fun i b => body i j k b) b) b
    = Some b'
    /\ swept idx nx ny nz upd b0 (before 0 0 (k + 1)) b'.
Proof using Hidx Hbody.
  intros Hk H0.
  destruct (for_loop_invariant
              (fun j b => swept idx nx ny nz upd b0 (before 0 j k) b)
              ny (fun j b => for_loop nx (fun i b => body i j k b) b) b H0)
    as (b' & Hrun & Hend).
  { intros j t Hj Hinv. apply row_swept; assumption. }
  exists b'. split; [exact Hrun|].
  revert Hend. apply swept_ext.
  intros i' j' k' (Hi' & Hj' & Hk'). unfold before. lia.
Qed.

(** The loops over [k], [j] and [i]. *)
Lemma grid_swept :
  exists b',
    for_loop nz (fun k b =>
      for_loop ny (fun j b =>
        for_loop nx (fun i b => body i j k b) b) b) b0 = Some b'
    /\ swept idx nx ny nz upd b0 (fun _ _ _ => True) b'.
Proof using Hidx Hbody.
  destruct (for_loop_invariant
              (fun k b => swept idx nx ny nz upd b0 (before 0 0 k) b)
              nz (fun k b =>
                    for_loop ny (fun j b =>
                      for_loop nx (fun i b => body i j k b) b) b)
              b0 swept_start) as (b' & Hrun & Hend).
  { intros k t Hk Hinv. apply plane_swept; assumption. }
  exists b'. split; [exact Hrun|].
  revert Hend. apply swept_ext.
  intros i' j' k' (Hi' & Hj' & Hk'). unfold before. lia.
Qed.
End Sweep.

(** ** The right-hand side *)

Lemma store_cell_update (idx : Z -> Z -> Z -> Z) (F : Z -> Z -> Z -> R) :
  cell_update idx (fun i j k _ => F i j k)
    (fun i j k b => store b (idx i j k) (F i j k)).
Proof.
  intros i j k b old Hold.
  pose proof (load_Some_range _ _ _ Hold) as Hr.
  exists (<[Z.to_nat (idx i j k) := F i j k]> b).
  pose proof (store_in_range b (idx i j k) (F i j k) Hr) as Hst.
  split; [exact Hst|]. split; [apply length_insert|].
  split; [exact (load_store_same _ _ _ _ Hst)|].
  intros c Hc. exact (load_store_other _ _ _ _ c Hst Hc).
Qed.

Lemma subtract_cell_update (idx : Z -> Z -> Z -> Z) (G : Z -> Z -> Z -> R) :
  cell_update idx (fun i j k old => (old - G i j k)%R)
    (fun i j k b =>
       match load b (idx i j k) with
       | Some old => store b (idx i j k) (old - G i j k)%R
       | None => None
       end).
Proof.
  intros i j k b old Hold.
  pose proof (load_Some_range _ _ _ Hold) as Hr.
  exists (<[Z.to_nat (idx i j k) := (old - G i j k)%R]> b).
  pose proof (store_in_range b (idx i j k) (old - G i j k)%R Hr) as Hst.
  rewrite Hold.
  split; [exact Hst|]. split; [apply length_insert|].
  split; [exact (load_store_same _ _ _ _ Hst)|].
  intros c Hc. exact (load_store_other _ _ _ _ c Hst Hc).
Qed.

(** After the three loops every cell of a grid point holds the forcing
    term at the coordinates of the point. *)
Lemma rhs_init_cells (forcing : R -> R -> R -> R) (idx : Z -> Z -> Z -> Z)
    (nx ny nz : Z) (dx dy dz : R) (b : list R) :
  indexing idx nx ny nz (Z.of_nat (length b)) ->
  exists b',
    rhs_init forcing idx nx ny nz dx dy dz b = Some b' /\
    length b' = length b /\
    forall i j k, in_grid nx ny nz i j k ->
      load b' (idx i j k)
      = Some (forcing (IZR i * dx) (IZR j * dy) (IZR k * dz))%R.
Proof.
  intros Hidx.
  destruct (grid_swept idx nx ny nz _ _ b Hidx
              (store_cell_update idx
                 (fun i j k => forcing (IZR i * dx) (IZR j * dy) (IZR k * dz))%R))
    as (b' & Hrun & Hlen & Hcells).
  exists b'. split; [exact Hrun|]. split; [exact Hlen|].
  intros i j k Hg. destruct (Hcells i j k Hg) as [Hd _].
  rewrite (Hd I).
  destruct (load_in_range b (idx i j k)) as [old ->]; [|reflexivity].
  apply (idx_range _ _ _ _ _ Hidx). exact Hg.
Qed.

(** After the two loops of the boundary condition the cells of the layer
    [k = 0] have lost [vb * g_0], the cells of the other layers are as
    they were. *)
Lemma rhs_fold_cells (idx : Z -> Z -> Z -> Z) (vb : R) (nx ny nz : Z)
    (dx dy : R) (b : list R) :
  indexing idx nx ny nz (Z.of_nat (length b)) ->
  1 <= nz ->
  exists b',
    rhs_fold idx vb nx ny dx dy b = Some b' /\
    length b' = length b /\
    (forall i j, 0 <= i < nx -> 0 <= j < ny ->
       exists old,
         load b (idx i j 0) = Some old /\
         load b' (idx i j 0)
         = Some (old - vb * g_0 (IZR i * dx) (IZR j * dy))%R) /\
    (forall i j k, in_grid nx ny nz i j k -> 0 < k ->
       load b' (idx i j k) = load b (idx i j k)).
Proof.
  intros Hidx Hnz.
  destruct (plane_swept idx nx ny nz _ _ b Hidx
              (subtract_cell_update idx
                 (fun i j _ => vb * g_0 (IZR i * dx) (IZR j * dy))%R)
              0 b) as (b' & Hrun & Hlen & Hcells).
  { lia. }
  { apply swept_start. }
  exists b'. split; [exact Hrun|]. split; [exact Hlen|]. split.
  - intros i j Hi Hj.
    assert (Hg : in_grid nx ny nz i j 0) by (unfold in_grid; lia).
    destruct (load_in_range b (idx i j 0)) as [old Hold].
    { apply (idx_range _ _ _ _ _ Hidx). exact Hg. }
    exists old. split; [exact Hold|].
    destruct (Hcells i j 0 Hg) as [Hd _].
    rewrite Hd; [|unfold before; lia]. rewrite Hold. reflexivity.
  - intros i j k Hg Hk. destruct (Hcells i j k Hg) as [_ Hn].
    apply Hn. destruct Hg as (Hi & Hj & _). unfold before. lia.
Qed.

(** ** The index map of a run on one process *)

Lemma sequential_indexing (L : stencil3d) (px py pz nx ny nz : Z) :
  DD L = Some (mk_decomp3d px py pz nx ny nz) ->
  indexing (Sequential.index_c L) nx ny nz (nx * ny * nz).
Proof.
  intros HD. unfold Sequential.index_c. rewrite HD. simpl.
  split.
  - intros i j k (Hi & Hj & Hk).
    assert (0 <= k * ny + j <= (nz - 1) * ny + (ny - 1)) by nia.
    assert (0 <= (k * ny + j) * nx) by nia.
    assert ((k * ny + j) * nx <= ((nz - 1) * ny + (ny - 1)) * nx) by nia.
    nia.
  - intros i j k i' j' k' (Hi & Hj & Hk) (Hi' & Hj' & Hk') Heq.
    assert (Hrow : k * ny + j = k' * ny + j').
    { assert (Hq : (k * ny + j) * nx + i = (k' * ny + j') * nx + i') by lia.
      destruct (Z.lt_trichotomy (k * ny + j) (k' * ny + j')) as [Hlt|[He|Hgt]];
        [exfalso; nia|exact He|exfalso; nia]. }
    assert (Hk_eq : k = k').
    { destruct (Z.lt_trichotomy k k') as [Hlt|[He|Hgt]];
        [exfalso; nia|exact He|exfalso; nia]. }
    subst k'. assert (j = j') by lia. subst j'. lia.
Qed.

(** ** Runs: traces and outcomes of composed computations *)

Lemma trace_bind {A B : Type} (m : prog A) (k : A -> prog B) :
  trace (bind m k)
  = trace m ++ match outcome m with
               | inr a => trace (k a)
               | inl _ => []
               end.
Proof.
  destruct m as [t [s|a]]; simpl.
  - rewrite app_nil_r. reflexivity.
  - destruct (k a). reflexivity.
Qed.

Lemma outcome_bind {A B : Type} (m : prog A) (k : A -> prog B) :
  outcome (bind m k)
  = match outcome m with
    | inr a => outcome (k a)
    | inl s => inl s
    end.
Proof.
  destruct m as [t [s|a]]; simpl; [reflexivity|].
  destruct (k a). reflexivity.
Qed.

Lemma Forall_trace_bind {A B : Type} (P : event -> Prop)
    (m : prog A) (k : A -> prog B) :
  Forall P (trace m) ->
  (forall a, outcome m = inr a -> Forall P (trace (k a))) ->
  Forall P (trace (bind m k)).
Proof.
  intros Hm Hk. rewrite trace_bind. apply Forall_app. split; [exact Hm|].
  destruct (outcome m) as [s|a]; [constructor|].
  apply Hk. reflexivity.
Qed.

Lemma finalize_closes_bind {A B : Type} (m : prog A) (k : A -> prog B) :
  ~ In MPI_Finalize (trace m) ->
  (forall a, outcome m = inr a -> finalize_closes (k a)) ->
  finalize_closes (bind m k).
Proof.
  intros Hm Hk. unfold finalize_closes.
  rewrite trace_bind, outcome_bind.
  destruct (outcome m) as [s|a].
  - exists (trace m). split; [exact Hm|]. left.
    rewrite app_nil_r. split; [reflexivity|]. exists s. reflexivity.
  - destruct (Hk a eq_refl) as (pre & Hpre & [[Ht Ho]|[Ht Ho]]).
    + exists (trace m ++ pre). split.
      * rewrite in_app_iff. tauto.
      * left. rewrite Ht. split; [reflexivity|exact Ho].
    + exists (trace m ++ pre). split.
      * rewrite in_app_iff. tauto.
      * right. rewrite Ht, app_assoc. split; [reflexivity|exact Ho].
Qed.

Lemma finalize_closes_stop {A : Type} (t : list event) (s : stop) :
  ~ In MPI_Finalize t -> finalize_closes ((t, inl s) : prog A).
Proof.
  intros Ht. exists t. split; [exact Ht|]. left.
  split; [reflexivity|]. exists s. reflexivity.
Qed.

(** Nothing follows the one [MPI_Finalize] of such a run. *)
Lemma finalize_closes_last {A : Type} (p : prog A) (pre post : list event) :
  finalize_closes p ->
  trace p = pre ++ MPI_Finalize :: post ->
  post = [].
Proof.
  intros (t & Hnot & [[Ht _]|[Ht _]]) Hsplit.
  - exfalso. apply Hnot. rewrite <- Ht, Hsplit.
    apply in_elt.
  - rewrite Ht in Hsplit. clear Ht.
    revert pre Hsplit. induction t as [|e t IH]; intros pre Hsplit.
    + destruct pre as [|e' pre]; simpl in Hsplit.
      * injection Hsplit as <-. reflexivity.
      * injection Hsplit as _ Hnil. destruct pre; discriminate.
    + destruct pre as [|e' pre]; simpl in Hsplit.
      * injection Hsplit as He _. exfalso. apply Hnot. left. exact He.
      * injection Hsplit as _ Hrest. apply (IH (fun H => Hnot (or_intror H)) pre Hrest).
Qed.

(** ** The stages of [main] *)

Lemma ordered_printing_round (D : decomp3d) (rank : Z) (c : nat) (p : Z) :
  ordered_printing (Datatypes.S c) p rank D
  = ((if rank =? p
      then emit (cout [Str "Local grid on P"; Int rank; Str ": [";
                       Int (nx_loc D); Str " x "; Int (ny_loc D);
                       Str " x "; Int (nz_loc D); Str "]"])
      else ret tt) ;;;
     emit MPI_Barrier ;;;
     ordered_printing c (p + 1) rank D).
Proof. reflexivity. Qed.

Lemma ordered_printing_outcome (D : decomp3d) (rank : Z) (count : nat) :
  forall p, outcome (ordered_printing count p rank D) = inr tt.
Proof.
  induction count as [|c IH]; intros p; [reflexivity|].
  rewrite ordered_printing_round, !outcome_bind.
  destruct (rank =? p); simpl; apply IH.
Qed.

Lemma ordered_printing_trace (D : decomp3d) (rank : Z) (count : nat) :
  forall p,
    Forall (fun e => e = MPI_Barrier \/ exists line, e = cout line)
      (trace (ordered_printing count p rank D)).
Proof.
  induction count as [|c IH]; intros p; [constructor|].
  rewrite ordered_printing_round.
  apply Forall_trace_bind.
  - destruct (rank =? p); simpl; [|constructor].
    constructor; [|constructor]. right. eexists. reflexivity.
  - intros _ _. apply Forall_trace_bind.
    + constructor; [|constructor]. left. reflexivity.
    + intros _ _. apply IH.
Qed.

Lemma read_arguments_cases (E : extern) (argv : list string) :
  (exists g, read_arguments E argv = ([], inr g)) \/
  (Z.of_nat (length argv) <> 1 /\ Z.of_nat (length argv) <> 2 /\
   Z.of_nat (length argv) <> 4 /\
   read_arguments E argv
   = ([cerr [Str invalid_arguments]], inl (Exit (-1)))).
Proof.
  unfold read_arguments.
  destruct (Z.eqb_spec (Z.of_nat (length argv)) 1); [left; eexists; reflexivity|].
  destruct (Z.eqb_spec (Z.of_nat (length argv)) 2); [left; eexists; reflexivity|].
  destruct (Z.eqb_spec (Z.of_nat (length argv)) 4); [left; eexists; reflexivity|].
  right. repeat split; assumption.
Qed.

Lemma grid_size_cases (E : extern) (argv : list string) :
  (exists g, grid_size E argv = ([], inr g)) \/
  (Z.of_nat (length argv) <> 1 /\ Z.of_nat (length argv) <> 2 /\
   Z.of_nat (length argv) <> 4 /\
   grid_size E argv = ([cerr [Str invalid_arguments]], inl (Exit (-1)))).
Proof.
  unfold grid_size.
  destruct (read_arguments_cases E argv) as [[[[nx ny] nz] ->]|(H1 & H2 & H4 & ->)].
  - left. eexists. reflexivity.
  - right. repeat split; assumption.
Qed.

Lemma report_decomposition_outcome (rank nx ny nz : Z) (D : decomp3d) :
  outcome (report_decomposition rank nx ny nz D) = inr tt.
Proof. unfold report_decomposition. destruct (rank =? 0); reflexivity. Qed.

Lemma report_decomposition_trace (rank nx ny nz : Z) (D : decomp3d) :
  Forall (fun e => e = MPI_Barrier \/ exists line, e = cout line)
    (trace (report_decomposition rank nx ny nz D)).
Proof.
  unfold report_decomposition. destruct (rank =? 0); simpl.
  - repeat (constructor; [right; eexists; reflexivity|]). constructor.
  - constructor.
Qed.

(** What [main] prints between the construction of the decomposition and
    that of the stencil. *)
Lemma printing_trace (E : extern) (nx ny nz : Z) (D : decomp3d) (P : event -> Prop) :
  P MPI_Barrier -> (forall line, P (cout line)) ->
  Forall P (trace (report_decomposition (rank E) nx ny nz D)
            ++ trace (ordered_printing (Z.to_nat (nproc E)) 0 (rank E) D)).
Proof.
  intros Hb Hc. apply Forall_app. split.
  - eapply Forall_impl; [apply report_decomposition_trace|].
    intros e [->|[line ->]]; auto.
  - eapply Forall_impl; [apply ordered_printing_trace|].
    intros e [->|[line ->]]; auto.
Qed.

Lemma init_fresh (n : Z) (a : R) :
  init n (replicate (Z.to_nat n) 0%R) a = replicate (Z.to_nat n) a.
Proof.
  unfold init. rewrite drop_ge; [apply app_nil_r|].
  rewrite length_replicate. lia.
Qed.

Lemma propagate_trace {A : Type} (r : result A) : trace (propagate r) = [].
Proof. destruct r; reflexivity. Qed.

Lemma propagate_value {A : Type} (r : result A) (a : A) :
  outcome (propagate r) = inr a -> r = Ok a.
Proof. destruct r; simpl; [intros [= ->]; reflexivity|discriminate]. Qed.

Lemma checked_trace {A : Type} (o : option A) : trace (checked o) = [].
Proof. destruct o; reflexivity. Qed.

Lemma checked_value {A : Type} (o : option A) (a : A) :
  outcome (checked o) = inr a -> o = Some a.
Proof. destruct o; simpl; [intros [= ->]; reflexivity|discriminate]. Qed.

Lemma grid_size_value (E : extern) (argv : list string) (g : Z * Z * Z) :
  outcome (grid_size E argv) = inr g -> grid_size E argv = ([], inr g).
Proof.
  destruct (grid_size_cases E argv) as [[g' Hg]|(_ & _ & _ & Hg)];
    rewrite Hg; simpl; [intros [= ->]; reflexivity|discriminate].
Qed.

Lemma grid_size_trace (E : extern) (argv : list string) (P : event -> Prop) :
  (forall line, P (cerr line)) -> Forall P (trace (grid_size E argv)).
Proof.
  intros Hc.
  destruct (grid_size_cases E argv) as [[g' Hg]|(_ & _ & _ & Hg)];
    rewrite Hg; simpl; repeat constructor. apply Hc.
Qed.

(** ** Every run of [main], event by event *)

(** A property of events holds along every run when it holds of the
    fixed calls and of the one call of the solver, which is reached only
    through a decomposition, a stencil and a right-hand side built
    without error. *)
Lemma main_events (P : event -> Prop) (E : extern) (argv : list string) :
  P MPI_Init -> P MPI_Barrier -> P Timer_summarize -> P MPI_Finalize ->
  (forall line, P (cout line)) -> (forall line, P (cerr line)) ->
  (forall nx ny nz, P (new_decomp3d nx ny nz)) ->
  (forall nx ny nz D L0 x b,
      grid_size E argv = ([], inr (nx, ny, nz)) ->
      decomp3d_ctor E nx ny nz = Ok D ->
      laplace3d_stencil nx ny nz = Ok L0 ->
      P (call_cg_solver (set_DD L0 D) (n E) x b (sqrt epsilon) 500)) ->
  Forall P (trace (main E argv)).
Proof.
  intros Hinit Hbar Htim Hfin Hcout Hcerr Hdec Hsolve. unfold main.
  apply Forall_trace_bind; [repeat constructor; exact Hinit|intros _ _].
  apply Forall_trace_bind; [apply grid_size_trace, Hcerr|].
  intros [[nx ny] nz] Hg%grid_size_value. cbn beta iota.
  apply Forall_trace_bind; [repeat constructor; apply Hdec|intros _ _].
  apply Forall_trace_bind; [rewrite propagate_trace; constructor|].
  intros D HD%propagate_value.
  rewrite trace_bind, report_decomposition_outcome.
  rewrite trace_bind, ordered_printing_outcome, app_assoc.
  apply Forall_app. split; [apply printing_trace; assumption|].
  apply Forall_trace_bind; [rewrite propagate_trace; constructor|].
  intros L0 HL%propagate_value.
  apply Forall_trace_bind; [rewrite propagate_trace; constructor|intros x _].
  apply Forall_trace_bind; [rewrite propagate_trace; constructor|intros b _].
  apply Forall_trace_bind; [rewrite checked_trace; constructor|intros b1 _].
  apply Forall_trace_bind; [rewrite checked_trace; constructor|intros b2 _].
  apply Forall_trace_bind.
  { repeat constructor. apply (Hsolve nx ny nz); assumption. }
  intros _ _.
  destruct (cg_solver E _ _ _ _ _ _); simpl; repeat constructor; auto.
Qed.

Lemma not_finalize_In (t : list event) :
  Forall (fun e => e <> MPI_Finalize) t -> ~ In MPI_Finalize t.
Proof.
  intros Ht Hin. rewrite Forall_forall in Ht.
  apply (Ht MPI_Finalize); [|reflexivity].
  apply list_elem_of_In. exact Hin.
Qed.

(** Every run of [main] calls [MPI_Finalize] at most once and last. *)
Lemma main_finalize_closes (E : extern) (argv : list string) :
  finalize_closes (main E argv).
Proof.
  unfold main.
  apply finalize_closes_bind; [simpl; intros [H|[]]; discriminate|intros _ _].
  apply finalize_closes_bind.
  { apply not_finalize_In, grid_size_trace. discriminate. }
  intros [[nx ny] nz] _. cbn beta iota.
  apply finalize_closes_bind; [simpl; intros [H|[]]; discriminate|intros _ _].
  apply finalize_closes_bind; [rewrite propagate_trace; intros []|intros D _].
  apply finalize_closes_bind.
  { apply not_finalize_In.
    eapply Forall_impl; [apply report_decomposition_trace|].
    intros e [->|[line ->]]; discriminate. }
  intros _ _.
  apply finalize_closes_bind.
  { apply not_finalize_In.
    eapply Forall_impl; [apply ordered_printing_trace|].
    intros e [->|[line ->]]; discriminate. }
  intros _ _.
  apply finalize_closes_bind; [rewrite propagate_trace; intros []|intros L0 _].
  apply finalize_closes_bind; [rewrite propagate_trace; intros []|intros x _].
  apply finalize_closes_bind; [rewrite propagate_trace; intros []|intros b _].
  apply finalize_closes_bind; [rewrite checked_trace; intros []|intros b1 _].
  apply finalize_closes_bind; [rewrite checked_trace; intros []|intros b2 _].
  apply finalize_closes_bind; [simpl; intros [H|[]]; discriminate|intros _ _].
  destruct (cg_solver E _ _ _ _ _ _) as [sol|what].
  - exists [Timer_summarize]. split; [simpl; intros [H|[]]; discriminate|].
    right. split; [reflexivity|]. exists 0. reflexivity.
  - apply finalize_closes_stop. simpl. intros [H|[]]; discriminate.
Qed.

(** ** The runs of [main], case by case *)

(** A wrong number of arguments. *)
Lemma main_bad_arguments (E : extern) (argv : list string) :
  Z.of_nat (length argv) <> 1 -> Z.of_nat (length argv) <> 2 ->
  Z.of_nat (length argv) <> 4 ->
  main E argv = ([MPI_Init; cerr [Str invalid_arguments]], inl (Exit (-1))).
Proof.
  intros H1 H2 H4. unfold main.
  destruct (grid_size_cases E argv) as [[g Hg]|(_ & _ & _ & Hg)].
  - exfalso. revert Hg. unfold grid_size, read_arguments.
    destruct (Z.eqb_spec (Z.of_nat (length argv)) 1); [contradiction|].
    destruct (Z.eqb_spec (Z.of_nat (length argv)) 2); [contradiction|].
    destruct (Z.eqb_spec (Z.of_nat (length argv)) 4); [contradiction|].
    discriminate.
  - rewrite Hg. reflexivity.
Qed.

(** The decomposition is constructed for the grid of [grid_size], and
    nothing but [MPI_Init] comes before. *)
Lemma main_constructs_decomposition (E : extern) (argv : list string)
    (nx ny nz : Z) :
  grid_size E argv = ([], inr (nx, ny, nz)) ->
  exists rest,
    trace (main E argv) = MPI_Init :: new_decomp3d nx ny nz :: rest.
Proof.
  intros Hg. unfold main.
  rewrite trace_bind. cbn [emit outcome trace fst snd].
  rewrite trace_bind, Hg. cbn [emit outcome trace fst snd].
  rewrite trace_bind. cbn [emit outcome trace fst snd].
  eexists. reflexivity.
Qed.

(** The run in which nothing fails before the solver is called. *)
Lemma main_run (E : extern) (argv : list string) (nx ny nz : Z)
    (D : decomp3d) (L0 : stencil3d) (b1 b2 : list R) :
  grid_size E argv = ([], inr (nx, ny, nz)) ->
  decomp3d_ctor E nx ny nz = Ok D ->
  laplace3d_stencil nx ny nz = Ok L0 ->
  0 <= n E ->
  rhs_init f (index_c E (set_DD L0 D)) nx ny nz
    (spacing nx) (spacing ny) (spacing nz)
    (replicate (Z.to_nat (n E)) 0%R) = Some b1 ->
  rhs_fold (index_c E (set_DD L0 D)) (value_b L0) nx ny
    (spacing nx) (spacing ny) b1 = Some b2 ->
  let L := set_DD L0 D in
  let x := replicate (Z.to_nat (n E)) 0%R in
  let solved := cg_solver E L (n E) x b2 (sqrt epsilon) 500 in
  trace (main E argv)
  = [MPI_Init; new_decomp3d nx ny nz]
    ++ trace (report_decomposition (rank E) nx ny nz D)
    ++ trace (ordered_printing (Z.to_nat (nproc E)) 0 (rank E) D)
    ++ call_cg_solver L (n E) x b2 (sqrt epsilon) 500
       :: match solved with
          | Ok _ => [Timer_summarize; MPI_Finalize]
          | Throw _ =>
              [cerr [Str "Caught an exception in cg_solve: "; Str sliced_what]]
          end
  /\ outcome (main E argv)
     = match solved with
       | Ok _ => inr 0
       | Throw _ => inl (Exit (-1))
       end.
Proof.
  intros Hg HD HL Hn Hb1 Hb2 L x solved. subst L x solved.
  assert (Hnew : new_double (n E) = Ok (replicate (Z.to_nat (n E)) 0%R)).
  { unfold new_double. destruct (Z.ltb_spec (n E) 0); [lia|reflexivity]. }
  unfold spacing in Hb1, Hb2.
  split.
  - unfold main.
    rewrite trace_bind. cbn [emit outcome trace fst snd].
    rewrite trace_bind, Hg. cbn [emit outcome trace fst snd].
    rewrite trace_bind. cbn [emit outcome trace fst snd].
    rewrite trace_bind, HD. cbn [emit outcome trace fst snd propagate ret].
    rewrite trace_bind, report_decomposition_outcome.
    rewrite trace_bind, ordered_printing_outcome.
    rewrite trace_bind, HL. cbn [emit outcome trace fst snd propagate ret].
    rewrite trace_bind, Hnew. cbn [emit outcome trace fst snd propagate ret].
    rewrite trace_bind. cbn [emit outcome trace fst snd propagate ret].
    rewrite !init_fresh.
    rewrite trace_bind, Hb1. cbn [emit outcome trace fst snd checked ret].
    rewrite trace_bind. cbn [value_b set_DD]. rewrite Hb2.
    cbn [emit outcome trace fst snd checked ret].
    rewrite trace_bind. cbn [emit outcome trace fst snd].
    destruct (cg_solver E _ _ _ _ _ _); reflexivity.
  - unfold main.
    rewrite outcome_bind. cbn [emit outcome trace fst snd].
    rewrite outcome_bind, Hg. cbn [emit outcome trace fst snd].
    rewrite outcome_bind. cbn [emit outcome trace fst snd].
    rewrite outcome_bind, HD. cbn [emit outcome trace fst snd propagate ret].
    rewrite outcome_bind, report_decomposition_outcome.
    rewrite outcome_bind, ordered_printing_outcome.
    rewrite outcome_bind, HL. cbn [emit outcome trace fst snd propagate ret].
    rewrite outcome_bind, Hnew. cbn [emit outcome trace fst snd propagate ret].
    rewrite outcome_bind. cbn [emit outcome trace fst snd propagate ret].
    rewrite !init_fresh.
    rewrite outcome_bind, Hb1. cbn [emit outcome trace fst snd checked ret].
    rewrite outcome_bind. cbn [value_b set_DD]. rewrite Hb2.
    cbn [emit outcome trace fst snd checked ret].
    rewrite outcome_bind. cbn [emit outcome trace fst snd].
    destruct (cg_solver E _ _ _ _ _ _); reflexivity.
Qed.

Lemma laplace3d_stencil_Ok (nx ny nz : Z) (L : stencil3d) :
  laplace3d_stencil nx ny nz = Ok L ->
  3 <= nx /\ 3 <= ny /\ 3 <= nz /\
  value_b L = ((-1) / (spacing nz * spacing nz))%R.
Proof.
  unfold laplace3d_stencil.
  destruct (Z.leb_spec nx 2); [discriminate|].
  destruct (Z.leb_spec ny 2); [discriminate|].
  destruct (Z.leb_spec nz 2); [discriminate|].
  simpl. intros [= <-]. simpl. repeat split; try lia.
Qed.

(** The right-hand side that [main] hands to the solver: the forcing
    term everywhere, less [value_b * g_0] in the layer [k = 0]. *)
Lemma rhs_built (idx : Z -> Z -> Z -> Z) (vb : R) (nx ny nz : Z)
    (dx dy dz : R) (b : list R) :
  indexing idx nx ny nz (Z.of_nat (length b)) ->
  1 <= nz ->
  exists b1 b2,
    rhs_init f idx nx ny nz dx dy dz b = Some b1 /\
    rhs_fold idx vb nx ny dx dy b1 = Some b2 /\
    (forall i j k, in_grid nx ny nz i j k ->
       load b1 (idx i j k) = Some (f (IZR i * dx) (IZR j * dy) (IZR k * dz))%R) /\
    (forall i j, 0 <= i < nx -> 0 <= j < ny ->
       load b2 (idx i j 0)
       = Some (f (IZR i * dx) (IZR j * dy) (IZR 0 * dz)
               - vb * g_0 (IZR i * dx) (IZR j * dy))%R) /\
    (forall i j k, in_grid nx ny nz i j k -> 0 < k ->
       load b2 (idx i j k) = load b1 (idx i j k)).
Proof.
  intros Hidx Hnz.
  destruct (rhs_init_cells f idx nx ny nz dx dy dz b Hidx)
    as (b1 & Hb1 & Hlen1 & Hcells1).
  assert (Hidx1 : indexing idx nx ny nz (Z.of_nat (length b1)))
    by (rewrite Hlen1; exact Hidx).
  destruct (rhs_fold_cells idx vb nx ny nz dx dy b1 Hidx1 Hnz)
    as (b2 & Hb2 & Hlen2 & Hface & Hrest).
  exists b1, b2. repeat split; try assumption.
  intros i j Hi Hj. destruct (Hface i j Hi Hj) as (old & Hold & Hnew).
  rewrite Hnew. rewrite Hcells1 in Hold by (unfold in_grid; lia).
  injection Hold as <-. reflexivity.
Qed.

(** ** Runs on one process *)

Lemma sequential_run (argv : list string) (nx ny nz : Z) :
  let E := Sequential.env (nx * ny * nz) in
  grid_size E argv = ([], inr (nx, ny, nz)) ->
  3 <= nx -> 3 <= ny -> 3 <= nz ->
  exists L x b pre,
    trace (main E argv)
    = pre ++ [call_cg_solver L (nx * ny * nz) x b (sqrt epsilon) 500;
              Timer_summarize; MPI_Finalize]
    /\ outcome (main E argv) = inr 0.
Proof.
  intros E Hg Hx Hy Hz.
  pose proof (laplace3d_stencil_large nx ny nz Hx Hy Hz) as HL.
  set (L0 := mk_stencil3d _ _ _ _ _ _ _ _ _ _ _) in HL.
  set (D := mk_decomp3d 1 1 1 nx ny nz).
  assert (Hn : 0 <= nx * ny * nz) by nia.
  destruct (rhs_built (index_c E (set_DD L0 D)) (value_b L0) nx ny nz
              (spacing nx) (spacing ny) (spacing nz)
              (replicate (Z.to_nat (n E)) 0%R))
    as (b1 & b2 & Hb1 & Hb2 & _).
  { rewrite length_replicate. simpl n. rewrite Z2Nat.id by exact Hn.
    apply (sequential_indexing _ 1 1 1). reflexivity. }
  { lia. }
  destruct (main_run E argv nx ny nz D L0 b1 b2 Hg eq_refl HL Hn Hb1 Hb2)
    as [Ht Ho].
  simpl in Ho. exists (set_DD L0 D), (replicate (Z.to_nat (n E)) 0%R), b2.
  eexists. split; [|exact Ho].
  rewrite Ht. simpl cg_solver. cbn iota.
  rewrite !app_assoc. reflexivity.
Qed.

Lemma stencil_3 : exists L, laplace3d_stencil 3 3 3 = Ok L.
Proof. eexists. apply laplace3d_stencil_large; lia. Qed.

Lemma sequential_grid_3 :
  grid_size (Sequential.env (3 * 3 * 3)) ["main_cg_poisson"; "3"]%string
  = ([], inr (3, 3, 3)).
Proof. reflexivity. Qed.

Lemma sequential_grid_2 :
  grid_size (Sequential.env (2 * 2 * 2)) ["main_cg_poisson"; "2"]%string
  = ([], inr (2, 2, 2)).
Proof. reflexivity. Qed.

(** * The properties of the specification *)

(** C1. [laplace3d_stencil] throws its configuration error for every grid
    with an axis of at most 2 points, and a run of [main] on such a grid
    ends with an uncaught exception without ever calling the solver; for
    every grid with at least 3 points on each axis [laplace3d_stencil]
    returns a stencil. *)
Theorem stencil_size_guard (nx ny nz : Z) :
  (nx <= 2 \/ ny <= 2 \/ nz <= 2 ->
   laplace3d_stencil nx ny nz = Throw stencil_too_small /\
   forall E argv,
     grid_size E argv = ([], inr (nx, ny, nz)) ->
     Forall (fun e => is_solve e = false) (trace (main E argv)) /\
     exists what, outcome (main E argv) = inl (Uncaught what)) /\
  (3 <= nx /\ 3 <= ny /\ 3 <= nz ->
   exists L, laplace3d_stencil nx ny nz = Ok L).
Proof.
  split.
  - intros Hsmall.
    pose proof (laplace3d_stencil_small nx ny nz Hsmall) as Hthrow.
    split; [exact Hthrow|]. intros E argv Hg. split.
    + apply main_events; try reflexivity.
      intros nx' ny' nz' D L0 x b Hg' _ HL.
      rewrite Hg in Hg'. injection Hg' as <- <- <-.
      rewrite Hthrow in HL. discriminate.
    + unfold main.
      rewrite outcome_bind. cbn [emit outcome trace fst snd].
      rewrite outcome_bind, Hg. cbn [emit outcome trace fst snd].
      rewrite outcome_bind. cbn [emit outcome trace fst snd].
      rewrite outcome_bind.
      destruct (decomp3d_ctor E nx ny nz) as [D|what];
        cbn [outcome snd propagate ret halt]; [|exists what; reflexivity].
      rewrite outcome_bind, report_decomposition_outcome.
      rewrite outcome_bind, ordered_printing_outcome.
      rewrite outcome_bind, Hthrow. cbn [outcome snd propagate ret halt].
      exists stencil_too_small. reflexivity.
  - intros (Hx & Hy & Hz). eexists.
    apply laplace3d_stencil_large; assumption.
Qed.

Lemma stencil_size_guard_witness :
  laplace3d_stencil 2 2 2 = Throw stencil_too_small /\
  (exists what,
     outcome (main (Sequential.env (2 * 2 * 2)) ["main_cg_poisson"; "2"]%string)
     = inl (Uncaught what)) /\
  exists L, laplace3d_stencil 3 3 3 = Ok L.
Proof.
  destruct (stencil_size_guard 2 2 2) as [Hsmall _].
  destruct Hsmall as [Hthrow Hmain]; [lia|].
  destruct (stencil_size_guard 3 3 3) as [_ Hlarge].
  split; [exact Hthrow|]. split.
  - apply (Hmain _ _ sequential_grid_2).
  - apply Hlarge. lia.
Defined.

(** C2. For [nx], [ny], [nz] of at least 3 the stencil has
    [value_c = 2/dx^2 + 2/dy^2 + 2/dz^2] with [dx = 1/(nx-1)],
    [dy = 1/(ny-1)], [dz = 1/(nz-1)]; [value_c] is positive and the six
    other coefficients are negative. *)
Theorem stencil_coefficients (nx ny nz : Z) :
  3 <= nx -> 3 <= ny -> 3 <= nz ->
  exists L,
    laplace3d_stencil nx ny nz = Ok L /\
    (let dx := 1 / IZR (nx - 1) in
     let dy := 1 / IZR (ny - 1) in
     let dz := 1 / IZR (nz - 1) in
     value_c L = 2 / dx ^ 2 + 2 / dy ^ 2 + 2 / dz ^ 2)%R /\
    (0 < value_c L)%R /\
    (value_n L < 0)%R /\ (value_s L < 0)%R /\
    (value_e L < 0)%R /\ (value_w L < 0)%R /\
    (value_t L < 0)%R /\ (value_b L < 0)%R.
Proof.
  intros Hx Hy Hz. eexists.
  split; [apply laplace3d_stencil_large; assumption|].
  pose proof (reciprocal_square_pos _ (spacing_pos nx ltac:(lia))) as Px.
  pose proof (reciprocal_square_pos _ (spacing_pos ny ltac:(lia))) as Py.
  pose proof (reciprocal_square_pos _ (spacing_pos nz ltac:(lia))) as Pz.
  cbn [value_c value_n value_s value_e value_w value_t value_b].
  split.
  { cbv zeta. fold (spacing nx) (spacing ny) (spacing nz).
    rewrite <- !Rsqr_pow2. unfold Rsqr. reflexivity. }
  unfold Rdiv in *. repeat split; lra.
Qed.

Lemma stencil_coefficients_witness :
  exists L,
    laplace3d_stencil 3 3 3 = Ok L /\ (0 < value_c L)%R /\ (value_b L < 0)%R.
Proof.
  destruct (stencil_coefficients 3 3 3) as (L & HL & _ & Hc & H); [lia..|].
  exists L. split; [exact HL|]. split; [exact Hc|]. apply H.
Defined.

(** C3. For [nx], [ny], [nz] of at least 3 the coefficients of opposite
    faces are equal: [value_n = value_s], [value_e = value_w],
    [value_t = value_b]. *)
Theorem stencil_symmetric (nx ny nz : Z) :
  3 <= nx -> 3 <= ny -> 3 <= nz ->
  exists L,
    laplace3d_stencil nx ny nz = Ok L /\
    value_n L = value_s L /\ value_e L = value_w L /\ value_t L = value_b L.
Proof.
  intros Hx Hy Hz. eexists.
  split; [apply laplace3d_stencil_large; assumption|].
  repeat split.
Qed.

Lemma stencil_symmetric_witness :
  exists L,
    laplace3d_stencil 3 3 3 = Ok L /\
    value_n L = value_s L /\ value_e L = value_w L /\ value_t L = value_b L.
Proof. apply (stencil_symmetric 3 3 3); lia. Defined.

(** C4, as the code has it.  The loops that initialise the right-hand
    side visit every point of the grid, the points on the boundary
    included, and write at each the forcing term sampled at the
    coordinates [(i*dx, j*dy, k*dz)] of the point. *)
Theorem rhs_init_samples_every_point (forcing : R -> R -> R -> R)
    (idx : Z -> Z -> Z -> Z) (nx ny nz : Z) (dx dy dz : R) (b : list R) :
  indexing idx nx ny nz (Z.of_nat (length b)) ->
  exists b',
    rhs_init forcing idx nx ny nz dx dy dz b = Some b' /\
    forall i j k, in_grid nx ny nz i j k ->
      load b' (idx i j k)
      = Some (forcing (IZR i * dx) (IZR j * dy) (IZR k * dz))%R.
Proof.
  intros Hidx.
  destruct (rhs_init_cells forcing idx nx ny nz dx dy dz b Hidx)
    as (b' & Hrun & _ & Hcells).
  exists b'. split; assumption.
Qed.

Lemma rhs_init_samples_every_point_witness :
  exists L b',
    let idx := Sequential.index_c (set_DD L (mk_decomp3d 1 1 1 3 3 3)) in
    laplace3d_stencil 3 3 3 = Ok L /\
    rhs_init f idx 3 3 3 (spacing 3) (spacing 3) (spacing 3)
      (replicate 27 0%R) = Some b' /\
    load b' (idx 1 1 1)
    = Some (f (IZR 1 * spacing 3) (IZR 1 * spacing 3) (IZR 1 * spacing 3))%R.
Proof.
  destruct stencil_3 as (L & HL).
  destruct (rhs_init_samples_every_point f
              (Sequential.index_c (set_DD L (mk_decomp3d 1 1 1 3 3 3)))
              3 3 3 (spacing 3) (spacing 3) (spacing 3) (replicate 27 0%R))
    as (b' & Hrun & Hcells).
  - apply (sequential_indexing _ 1 1 1 3 3 3). reflexivity.
  - exists L, b'. split; [exact HL|]. split; [exact Hrun|].
    apply Hcells. unfold in_grid. lia.
Defined.

(** C4, as stated, fails.  On the grid of 3 x 3 x 3 points the point
    [(0,0,2)] lies on the boundary, and the entry written for it is the
    sample of the forcing term at its coordinates, whatever the forcing
    term; for [f] that sample is [f(0,0,1) = 8]. *)
Lemma rhs_init_samples_boundary_point :
  exists L0,
    laplace3d_stencil 3 3 3 = Ok L0 /\
    let idx := Sequential.index_c (set_DD L0 (mk_decomp3d 1 1 1 3 3 3)) in
    let h := spacing 3 in
    in_grid 3 3 3 0 0 2 /\
    on_boundary 3 3 3 0 0 2 /\
    (forall forcing, exists b',
        rhs_init forcing idx 3 3 3 h h h (replicate 27 0%R) = Some b' /\
        load b' (idx 0 0 2)
        = Some (forcing (IZR 0 * h) (IZR 0 * h) (IZR 2 * h))%R) /\
    f (IZR 0 * h) (IZR 0 * h) (IZR 2 * h) = 8%R.
Proof.
  eexists. split; [apply laplace3d_stencil_large; lia|].
  intros idx h.
  assert (Hg : in_grid 3 3 3 0 0 2) by (unfold in_grid; lia).
  split; [exact Hg|]. split; [unfold on_boundary; lia|]. split.
  - intros forcing.
    destruct (rhs_init_cells forcing idx 3 3 3 h h h (replicate 27 0%R))
      as (b' & Hrun & _ & Hcells).
    { apply (sequential_indexing _ 1 1 1 3 3 3). reflexivity. }
    exists b'. split; [exact Hrun|]. apply Hcells. exact Hg.
  - unfold h, spacing. change (3 - 1) with 2.
    replace (0 * (1 / 2))%R with 0%R by lra.
    replace (2 * (1 / 2))%R with 1%R by lra.
    unfold f. rewrite !Rmult_0_r, sin_0. lra.
Qed.

(** C5, as the code has it.  The loops of the boundary condition write
    the layer [k = 0] only: the entry of a point [(i,j,0)] becomes its
    forcing value less [value_b * g_0(i*dx, j*dy)]; no entry with
    [k > 0] changes, and on the edges [i = 0] and [j = 0] of the face,
    where [g_0] is zero, the entries keep their values. *)
Theorem boundary_fold_one_face (idx : Z -> Z -> Z -> Z) (nx ny nz : Z)
    (L : stencil3d) (b : list R) :
  laplace3d_stencil nx ny nz = Ok L ->
  indexing idx nx ny nz (Z.of_nat (length b)) ->
  let dx := spacing nx in
  let dy := spacing ny in
  let dz := spacing nz in
  exists b1 b2,
    rhs_init f idx nx ny nz dx dy dz b = Some b1 /\
    rhs_fold idx (value_b L) nx ny dx dy b1 = Some b2 /\
    (forall i j, 0 <= i < nx -> 0 <= j < ny ->
       load b2 (idx i j 0)
       = Some (f (IZR i * dx) (IZR j * dy) (IZR 0 * dz)
               - value_b L * g_0 (IZR i * dx) (IZR j * dy))%R) /\
    (forall i j k, in_grid nx ny nz i j k -> 0 < k ->
       load b2 (idx i j k) = load b1 (idx i j k)) /\
    (forall i j k, in_grid nx ny nz i j k -> i = 0 \/ j = 0 ->
       load b2 (idx i j k) = load b1 (idx i j k)).
Proof.
  intros HL Hidx dx dy dz.
  destruct (laplace3d_stencil_Ok _ _ _ _ HL) as (Hx & Hy & Hz & _).
  destruct (rhs_built idx (value_b L) nx ny nz dx dy dz b Hidx)
    as (b1 & b2 & Hb1 & Hb2 & Hcells & Hface & Hrest); [lia|].
  exists b1, b2. repeat split; try assumption.
  intros i j k Hg Hedge.
  destruct (Z.eq_dec k 0) as [->|Hk]; [|apply Hrest; [exact Hg|]].
  2: { destruct Hg as (_ & _ & Hk'). lia. }
  pose proof Hg as (Hi & Hj & _).
  rewrite (Hface i j Hi Hj), (Hcells i j 0 Hg). f_equal.
  assert (Hzero : g_0 (IZR i * dx) (IZR j * dy) = 0%R).
  { destruct Hedge as [-> | ->].
    - rewrite Rmult_0_l. apply g_0_west.
    - rewrite Rmult_0_l. apply g_0_south. }
  rewrite Hzero. ring.
Qed.

Lemma boundary_fold_one_face_witness :
  exists L b1 b2,
    let idx := Sequential.index_c (set_DD L (mk_decomp3d 1 1 1 3 3 3)) in
    laplace3d_stencil 3 3 3 = Ok L /\
    rhs_init f idx 3 3 3 (spacing 3) (spacing 3) (spacing 3)
      (replicate 27 0%R) = Some b1 /\
    rhs_fold idx (value_b L) 3 3 (spacing 3) (spacing 3) b1 = Some b2 /\
    load b2 (idx 1 1 2) = load b1 (idx 1 1 2).
Proof.
  destruct stencil_3 as (L & HL).
  destruct (boundary_fold_one_face
              (Sequential.index_c (set_DD L (mk_decomp3d 1 1 1 3 3 3)))
              3 3 3 L (replicate 27 0%R) HL)
    as (b1 & b2 & Hb1 & Hb2 & _ & Hrest & _).
  - apply (sequential_indexing _ 1 1 1 3 3 3). reflexivity.
  - exists L, b1, b2. repeat split; try assumption.
    apply Hrest; [unfold in_grid|]; lia.
Defined.

(** C5, as stated, fails.  On the grid of 50 x 3 x 3 points the point
    [(49,1,0)] lies on the face x = 1.  In binary64 [49 * (1.0/49)] is
    not 1, so [g_0] is not zero at the coordinates of the point, and the
    loops of the boundary condition change its entry from 0 to a positive
    number. *)
Lemma boundary_fold_changes_east_edge :
  in_grid 50 3 3 49 1 0 /\
  on_other_face 50 3 3 49 1 0 /\
  PrimFloat.eqb
    (PrimFloat.mul (Binary64.of_int 49)
       (PrimFloat.div PrimFloat.one (Binary64.of_int 49)))
    PrimFloat.one = false /\
  Binary64.load (replicate 450 PrimFloat.zero)
    (Binary64.index_c (mk_decomp3d 1 1 1 50 3 3) 49 1 0)
  = Some PrimFloat.zero /\
  exists v,
    Binary64.folded_entry 50 3 3 49 1 0 = Some v /\
    PrimFloat.ltb PrimFloat.zero v = true.
Proof.
  split; [unfold in_grid; lia|].
  split; [unfold on_other_face; lia|].
  split; [vm_compute; reflexivity|].
  split; [vm_compute; reflexivity|].
  eexists. split; vm_compute; reflexivity.
Qed.

(** C6. [g_0(x,y) = x(1-x)y(1-y)] for all reals [x] and [y]. *)
Theorem g_0_formula (x y : R) : g_0 x y = (x * (1 - x) * y * (1 - y))%R.
Proof. unfold g_0. ring. Qed.



(** C7. In every run of [main] nothing is issued after [MPI_Finalize],
    so no call of MPI and no call that may contain one; and a run in
    which [main] returns ends with its only [MPI_Finalize]. *)
Theorem finalize_is_last_mpi_call (E : extern) (argv : list string) :
  (forall pre post,
      trace (main E argv) = pre ++ MPI_Finalize :: post -> post = []) /\
  (forall pre post e,
      trace (main E argv) = pre ++ MPI_Finalize :: post ->
      In e post -> is_mpi e = false) /\
  (forall code,
      outcome (main E argv) = inr code ->
      exists pre,
        trace (main E argv) = pre ++ [MPI_Finalize] /\
        ~ In MPI_Finalize pre).
Proof.
  pose proof (main_finalize_closes E argv) as Hclose.
  split; [|split].
  - intros pre post Hsplit.
    exact (finalize_closes_last _ pre post Hclose Hsplit).
  - intros pre post e Hsplit Hin.
    rewrite (finalize_closes_last _ pre post Hclose Hsplit) in Hin.
    destruct Hin.
  - intros code Hret.
    destruct Hclose as (pre & Hpre & [[_ [s Hs]]|[Ht _]]).
    + rewrite Hs in Hret. discriminate.
    + exists pre. split; assumption.
Qed.

Lemma finalize_is_last_mpi_call_witness :
  exists pre,
    trace (main (Sequential.env (3 * 3 * 3)) ["main_cg_poisson"; "3"]%string)
    = pre ++ [MPI_Finalize]
    /\ ~ In MPI_Finalize pre.
Proof.
  destruct (finalize_is_last_mpi_call (Sequential.env (3 * 3 * 3))
              ["main_cg_poisson"; "3"]%string) as (_ & _ & Hret).
  apply (Hret 0).
  destruct (sequential_run ["main_cg_poisson"; "3"]%string 3 3 3
              sequential_grid_3) as (L & x & b & pre & _ & Ho); [lia..|].
  exact Ho.
Defined.

(** C9. Without arguments the grid is 128 x 128 x 128; with one argument
    [nx] it is [nx] x [nx] x [nx]; with three arguments it is the triple
    given, a negative [ny] or [nz] replaced by [nx]; with any other
    number of arguments [main] reports the error and exits before the
    decomposition is constructed.  The decomposition is constructed for
    the grid so chosen. *)
Theorem command_line_grid (E : extern) (argv : list string) :
  (forall prog, argv = [prog] ->
     grid_size E argv = ([], inr (128, 128, 128))) /\
  (forall prog a, argv = [prog; a] ->
     grid_size E argv = ([], inr (atoi E a, atoi E a, atoi E a))) /\
  (forall prog a b c, argv = [prog; a; b; c] ->
     grid_size E argv
     = ([], inr (atoi E a,
                 (if atoi E b <? 0 then atoi E a else atoi E b),
                 (if atoi E c <? 0 then atoi E a else atoi E c)))) /\
  (Z.of_nat (length argv) <> 1 -> Z.of_nat (length argv) <> 2 ->
   Z.of_nat (length argv) <> 4 ->
   main E argv = ([MPI_Init; cerr [Str invalid_arguments]], inl (Exit (-1)))) /\
  (forall nx ny nz,
     grid_size E argv = ([], inr (nx, ny, nz)) ->
     exists rest,
       trace (main E argv) = MPI_Init :: new_decomp3d nx ny nz :: rest).
Proof.
  split; [|split; [|split; [|split]]].
  - intros prog ->. reflexivity.
  - intros prog a ->. unfold grid_size, read_arguments. simpl.
    destruct (atoi E a <? 0); reflexivity.
  - intros prog a b c ->. reflexivity.
  - apply main_bad_arguments.
  - apply main_constructs_decomposition.
Qed.

Lemma command_line_grid_witness :
  grid_size (Sequential.env 27) ["main_cg_poisson"]%string
  = ([], inr (128, 128, 128)) /\
  grid_size (Sequential.env 27) ["main_cg_poisson"; "5"]%string
  = ([], inr (5, 5, 5)) /\
  grid_size (Sequential.env 27) ["main_cg_poisson"; "6"; "-1"; "4"]%string
  = ([], inr (6, 6, 4)) /\
  main (Sequential.env 27) ["main_cg_poisson"; "6"; "4"]%string
  = ([MPI_Init; cerr [Str invalid_arguments]], inl (Exit (-1))).
Proof.
  split; [|split; [|split]].
  - apply (command_line_grid (Sequential.env 27) ["main_cg_poisson"]%string)
      with (prog := "main_cg_poisson"%string).
    reflexivity.
  - apply (command_line_grid (Sequential.env 27)
             ["main_cg_poisson"; "5"]%string)
      with (prog := "main_cg_poisson"%string) (a := "5"%string).
    reflexivity.
  - apply (command_line_grid (Sequential.env 27)
             ["main_cg_poisson"; "6"; "-1"; "4"]%string)
      with (prog := "main_cg_poisson"%string) (a := "6"%string)
           (b := "-1"%string) (c := "4"%string).
    reflexivity.
  - apply (command_line_grid (Sequential.env 27)
             ["main_cg_poisson"; "6"; "4"]%string); simpl; lia.
Defined.

(** C10. Whenever a run of [main] calls the solver, it calls it with
    [tol = sqrt(epsilon)], the square root of the machine epsilon
    [2^-52], that is [2^-26], and with [maxIter = 500], whatever the
    grid. *)
Theorem solver_call_parameters (E : extern) (argv : list string)
    (L : stencil3d) (n : Z) (x b : list R) (tol : R) (maxIter : Z) :
  In (call_cg_solver L n x b tol maxIter) (trace (main E argv)) ->
  tol = sqrt epsilon /\ tol = (/ 2 ^ 26)%R /\ maxIter = 500.
Proof.
  intros Hin.
  assert (Hall : Forall solver_parameters (trace (main E argv))).
  { apply main_events; try (intros; exact I).
    intros; simpl; split; reflexivity. }
  rewrite Forall_forall in Hall.
  apply list_elem_of_In in Hin.
  destruct (Hall _ Hin) as [-> ->].
  split; [reflexivity|]. split; [|reflexivity].
  unfold epsilon.
  replace (/ 2 ^ 52)%R with ((/ 2 ^ 26) * (/ 2 ^ 26))%R by (field_simplify; lra).
  apply sqrt_square. apply Rlt_le, Rinv_0_lt_compat, pow_lt. lra.
Qed.

Lemma solver_call_parameters_witness :
  exists L n x b tol maxIter,
    In (call_cg_solver L n x b tol maxIter)
      (trace (main (Sequential.env (3 * 3 * 3))
                ["main_cg_poisson"; "3"]%string)) /\
    tol = (/ 2 ^ 26)%R /\ maxIter = 500.
Proof.
  destruct (sequential_run ["main_cg_poisson"; "3"]%string 3 3 3
              sequential_grid_3) as (L & x & b & pre & Ht & _); [lia..|].
  assert (Hin : In (call_cg_solver L (3 * 3 * 3) x b (sqrt epsilon) 500)
                  (trace (main (Sequential.env (3 * 3 * 3))
                            ["main_cg_poisson"; "3"]%string))).
  { rewrite Ht. apply in_or_app. right. left. reflexivity. }
  destruct (solver_call_parameters _ _ _ _ _ _ _ _ Hin) as (_ & Htol & Hmax).
  exists L, (3 * 3 * 3), x, b, (sqrt epsilon), 500.
  split; [exact Hin|]. split; [exact Htol|exact Hmax].
Defined.

(** * Further properties of the driver *)

(** ** The coefficients of the stencil *)

(** X1. The centre of a stencil balances its neighbours, axis by axis:
    [value_c] is the sum, in the order x, y, z of the source, of the
    magnitudes of the two neighbours of each axis, so the operator is
    weakly diagonally dominant. *)
Theorem stencil_centre_balances_neighbours (nx ny nz : Z) :
  3 <= nx -> 3 <= ny -> 3 <= nz ->
  exists L,
    laplace3d_stencil nx ny nz = Ok L /\
    (value_c L
     = (Rabs (value_e L) + Rabs (value_w L))
       + (Rabs (value_n L) + Rabs (value_s L))
       + (Rabs (value_t L) + Rabs (value_b L)))%R /\
    (value_c L
     = - (value_e L + value_w L) + - (value_n L + value_s L)
       + - (value_t L + value_b L))%R.
Proof.
  intros Hx Hy Hz. eexists.
  split; [apply laplace3d_stencil_large; assumption|].
  cbn [value_c value_n value_s value_e value_w value_t value_b].
  pose proof (reciprocal_square_pos _ (spacing_pos nx ltac:(lia))) as Px.
  pose proof (reciprocal_square_pos _ (spacing_pos ny ltac:(lia))) as Py.
  pose proof (reciprocal_square_pos _ (spacing_pos nz ltac:(lia))) as Pz.
  assert (Hneg : forall q : R, (0 < 1 / q)%R -> Rabs ((-1) / q) = (1 / q)%R).
  { intros q Hq. rewrite Rabs_left; unfold Rdiv in *; lra. }
  rewrite !Hneg by assumption.
  unfold Rdiv in *. split; lra.
Qed.

Lemma stencil_centre_balances_neighbours_witness :
  exists L,
    laplace3d_stencil 3 4 5 = Ok L /\
    (value_c L
     = - (value_e L + value_w L) + - (value_n L + value_s L)
       + - (value_t L + value_b L))%R.
Proof.
  destruct (stencil_centre_balances_neighbours 3 4 5)
    as (L & HL & _ & Hsum); [lia..|].
  exists L. split; assumption.
Defined.

(** ** The boundary function and the forcing term *)

(** X3. On the unit square [g_0] is zero wherever [x] or [y] is 0 or 1:
    on the four edges, where the face z=0 meets the faces with the
    boundary value zero. *)
Theorem g_0_zero_on_edges (x y : R) :
  (0 <= x <= 1)%R -> (0 <= y <= 1)%R ->
  x = 0%R \/ x = 1%R \/ y = 0%R \/ y = 1%R ->
  g_0 x y = 0%R.
Proof.
  intros _ _. unfold g_0. intros [-> | [-> | [-> | ->]]]; ring.
Qed.

Lemma g_0_zero_on_edges_witness : g_0 1 (1 / 3) = 0%R.
Proof. apply (g_0_zero_on_edges 1 (1 / 3)); [lra|lra|]. right. left. reflexivity. Defined.

(** X4. On the unit square [g_0] lies between 0 and 1/16, the value it
    takes at the centre. *)
Theorem g_0_range (x y : R) :
  (0 <= x <= 1)%R -> (0 <= y <= 1)%R ->
  (0 <= g_0 x y <= 1 / 16)%R /\ g_0 (1 / 2) (1 / 2) = (1 / 16)%R.
Proof.
  intros Hx Hy. unfold g_0.
  assert (Hquarter : forall t : R, (0 <= t <= 1)%R -> (0 <= t * (1 - t) <= 1 / 4)%R).
  { intros t Ht. split.
    - apply Rmult_le_pos; lra.
    - pose proof (Rle_0_sqr (t - 1 / 2)) as Hs. unfold Rsqr in Hs. lra. }
  pose proof (Hquarter x Hx) as Hu. pose proof (Hquarter y Hy) as Hv.
  replace (x * (1 - x) * y * (1 - y))%R
    with ((x * (1 - x)) * (y * (1 - y)))%R by ring.
  split; [|lra]. split.
  - apply Rmult_le_pos; lra.
  - replace (1 / 16)%R with ((1 / 4) * (1 / 4))%R by lra.
    apply Rmult_le_compat; lra.
Qed.

Lemma g_0_range_witness : (0 <= g_0 (1 / 3) (3 / 4) <= 1 / 16)%R.
Proof. apply (g_0_range (1 / 3) (3 / 4)); lra. Defined.





(** ** The loops of the right-hand side and the bounds of the array *)

Lemma iterate_Some {S : Type} (Inv : S -> Prop) (Q : Z -> Prop)
    (body : Z -> S -> option S) (count : nat) :
  forall (from : Z) (s s' : S),
    Inv s ->
    (forall i t t', from <= i < from + Z.of_nat count -> Inv t ->
                    body i t = Some t' -> Inv t' /\ Q i) ->
    iterate count from body s = Some s' ->
    Inv s' /\ forall i, from <= i < from + Z.of_nat count -> Q i.
Proof.
  induction count as [|c IH]; intros from s s' H0 Hstep Hrun.
  - simpl in Hrun. injection Hrun as <-. split; [exact H0|]. intros i Hi. lia.
  - simpl in Hrun. destruct (body from s) as [s1|] eqn:Hb; [|discriminate].
    destruct (Hstep from s s1) as [H1 Hq]; [lia|assumption..|].
    destruct (IH (from + 1) s1 s' H1) as [Hend Hrest]; [|exact Hrun|].
    { intros i t t' Hi. apply Hstep. lia. }
    split; [exact Hend|]. intros i Hi.
    destruct (Z.eq_dec i from) as [->|Hne]; [exact Hq|].
    apply Hrest. lia.
Qed.

Lemma for_loop_Some {S : Type} (Inv : S -> Prop) (Q : Z -> Prop)
    (n : Z) (body : Z -> S -> option S) (s s' : S) :
  Inv s ->
  (forall i t t', 0 <= i < n -> Inv t -> body i t = Some t' -> Inv t' /\ Q i) ->
  for_loop n body s = Some s' ->
  Inv s' /\ forall i, 0 <= i < n -> Q i.
Proof.
  intros H0 Hstep Hrun. unfold for_loop in Hrun.
  destruct (iterate_Some Inv Q body (Z.to_nat n) 0 s s' H0) as [Hend Hq];
    [|exact Hrun|].
  { intros i t t' Hi. apply Hstep. lia. }
  split; [exact Hend|]. intros i Hi. apply Hq. lia.
Qed.

Section Access.
Variable idx : Z -> Z -> Z -> Z.
Variable body : Z -> Z -> Z -> list R -> option (list R).
Variables nx ny nz : Z.
Hypothesis Hruns : forall i j k b,
    0 <= idx i j k < Z.of_nat (length b) -> exists b', body i j k b = Some b'.
Hypothesis Hsome : forall i j k b b',
    body i j k b = Some b' ->
    0 <= idx i j k < Z.of_nat (length b) /\
    length b' = length b /\
    forall c, c <> idx i j k -> load b' c = load b c.

(** What a completed loop over [i] has done. *)
Lemma row_access (j k : Z) (b b' : list R) :
  for_loop nx (fun i b => body i j k b) b = Some b' ->
  (length b' = length b /\
   forall c, (forall i, 0 <= i < nx -> idx i j k <> c) -> load b' c = load b c)
  /\ forall i, 0 <= i < nx -> 0 <= idx i j k < Z.of_nat (length b).
Proof using Hsome.
  apply (for_loop_Some
           (fun t => length t = length b /\
                     forall c, (forall i, 0 <= i < nx -> idx i j k <> c) ->
                               load t c = load b c)
           (fun i => 0 <= idx i j k < Z.of_nat (length b))).
  - split; reflexivity.
  - intros i t t' Hi [Hlen Hframe] Hb.
    destruct (Hsome i j k t t' Hb) as (Hr & Hl & Hf).
    rewrite Hlen in Hr. split; [|exact Hr].
    split; [congruence|]. intros c Hc.
    rewrite Hf by (intros ->; exact (Hc i Hi eq_refl)).
    apply Hframe. exact Hc.
Qed.

(** What the completed loops over [j] and [i] have done. *)
Lemma plane_access (k : Z) (b b' : list R) :
  for_loop ny (fun j b => for_loop nx (fun i b => body i j k b) b) b = Some b' ->
  (length b' = length b /\
   forall c, (forall i j, 0 <= i < nx -> 0 <= j < ny -> idx i j k <> c) ->
             load b' c = load b c)
  /\ forall j, 0 <= j < ny ->
       forall i, 0 <= i < nx -> 0 <= idx i j k < Z.of_nat (length b).
Proof using Hsome.
  apply (for_loop_Some
           (fun t => length t = length b /\
                     forall c, (forall i j, 0 <= i < nx -> 0 <= j < ny ->
                                            idx i j k <> c) ->
                               load t c = load b c)
           (fun j => forall i, 0 <= i < nx ->
                               0 <= idx i j k < Z.of_nat (length b))).
  - split; reflexivity.
  - intros j t t' Hj [Hlen Hframe] Hb.
    destruct (row_access j k t t' Hb) as [[Hl Hf] Hr].
    rewrite Hlen in Hr. split; [|exact Hr].
    split; [congruence|]. intros c Hc.
    rewrite Hf by (intros i Hi; apply Hc; assumption).
    apply Hframe. exact Hc.
Qed.

(** What the completed loops over [k], [j] and [i] have done. *)
Lemma grid_access (b b' : list R) :
  for_loop nz (fun k b =>
    for_loop ny (fun j b =>
      for_loop nx (fun i b => body i j k b) b) b) b = Some b' ->
  (length b' = length b /\
   forall c, (forall i j k, in_grid nx ny nz i j k -> idx i j k <> c) ->
             load b' c = load b c)
  /\ forall k, 0 <= k < nz -> forall j, 0 <= j < ny ->
       forall i, 0 <= i < nx -> 0 <= idx i j k < Z.of_nat (length b).
Proof using Hsome.
  apply (for_loop_Some
           (fun t => length t = length b /\
                     forall c, (forall i j k, in_grid nx ny nz i j k ->
                                              idx i j k <> c) ->
                               load t c = load b c)
           (fun k => forall j, 0 <= j < ny -> forall i, 0 <= i < nx ->
                               0 <= idx i j k < Z.of_nat (length b))).
  - split; reflexivity.
  - intros k t t' Hk [Hlen Hframe] Hb.
    destruct (plane_access k t t' Hb) as [[Hl Hf] Hr].
    rewrite Hlen in Hr. split; [|exact Hr].
    split; [congruence|]. intros c Hc.
    rewrite Hf by (intros i j Hi Hj; apply Hc; unfold in_grid; lia).
    apply Hframe. exact Hc.
Qed.

(** The loops over [j] and [i] complete when the cells of the plane are
    inside the array. *)
Lemma plane_runs (k : Z) (b : list R) :
  (forall i j, 0 <= i < nx -> 0 <= j < ny ->
               0 <= idx i j k < Z.of_nat (length b)) ->
  exists b',
    for_loop ny (fun j b => for_loop nx (fun i b => body i j k b) b) b = Some b'
    /\ length b' = length b.
Proof using Hruns Hsome.
  intros Hr.
  destruct (for_loop_invariant (fun _ t => length t = length b) ny
              (fun j b => for_loop nx (fun i b => body i j k b) b) b eq_refl)
    as (b' & Hrun & Hlen); [|exists b'; split; assumption].
  intros j t Hj Ht.
  destruct (for_loop_invariant (fun _ u => length u = length b) nx
              (fun i b => body i j k b) t Ht)
    as (t' & Hrun' & Hlen'); [|exists t'; split; assumption].
  intros i u Hi Hu.
  destruct (Hruns i j k u) as [u' Hu']; [rewrite Hu; apply Hr; assumption|].
  exists u'. split; [exact Hu'|].
  destruct (Hsome i j k u u' Hu') as (_ & Hl & _). congruence.
Qed.

(** The three loops complete when the cells of the grid are inside the
    array. *)
Lemma grid_runs (b : list R) :
  (forall i j k, in_grid nx ny nz i j k ->
                 0 <= idx i j k < Z.of_nat (length b)) ->
  exists b',
    for_loop nz (fun k b =>
      for_loop ny (fun j b =>
        for_loop nx (fun i b => body i j k b) b) b) b = Some b'
    /\ length b' = length b.
Proof using Hruns Hsome.
  intros Hr.
  destruct (for_loop_invariant (fun _ t => length t = length b) nz
              (fun k b =>
                 for_loop ny (fun j b =>
                   for_loop nx (fun i b => body i j k b) b) b) b eq_refl)
    as (b' & Hrun & Hlen); [|exists b'; split; assumption].
  intros k t Hk Ht.
  destruct (plane_runs k t) as (t' & Hrun' & Hlen').
  { intros i j Hi Hj. rewrite Ht. apply Hr. unfold in_grid. lia. }
  exists t'. split; [exact Hrun'|congruence].
Qed.
End Access.

Lemma store_access (idx : Z -> Z -> Z -> Z) (F : Z -> Z -> Z -> R) :
  (forall i j k b,
      0 <= idx i j k < Z.of_nat (length b) ->
      exists b', store b (idx i j k) (F i j k) = Some b') /\
  (forall i j k b b',
      store b (idx i j k) (F i j k) = Some b' ->
      0 <= idx i j k < Z.of_nat (length b) /\
      length b' = length b /\
      forall c, c <> idx i j k -> load b' c = load b c).
Proof.
  split.
  - intros i j k b Hr. eexists. apply store_in_range. exact Hr.
  - intros i j k b b' Hst. pose proof (store_Some _ _ _ _ Hst) as [Hr Hb].
    split; [exact Hr|]. split; [subst b'; apply length_insert|].
    intros c Hc. exact (load_store_other _ _ _ _ c Hst Hc).
Qed.

Lemma subtract_access (idx : Z -> Z -> Z -> Z) (G : Z -> Z -> Z -> R) :
  (forall i j k b,
      0 <= idx i j k < Z.of_nat (length b) ->
      exists b',
        match load b (idx i j k) with
        | Some old => store b (idx i j k) (old - G i j k)%R
        | None => None
        end = Some b') /\
  (forall i j k b b',
      match load b (idx i j k) with
      | Some old => store b (idx i j k) (old - G i j k)%R
      | None => None
      end = Some b' ->
      0 <= idx i j k < Z.of_nat (length b) /\
      length b' = length b /\
      forall c, c <> idx i j k -> load b' c = load b c).
Proof.
  split.
  - intros i j k b Hr. destruct (load_in_range b _ Hr) as [old ->].
    eexists. apply store_in_range. exact Hr.
  - intros i j k b b' Hst.
    destruct (load b (idx i j k)) as [old|]; [|discriminate].
    pose proof (store_Some _ _ _ _ Hst) as [Hr Hb].
    split; [exact Hr|]. split; [subst b'; apply length_insert|].
    intros c Hc. exact (load_store_other _ _ _ _ c Hst Hc).
Qed.

Lemma rhs_init_runs (forcing : R -> R -> R -> R) (idx : Z -> Z -> Z -> Z)
    (nx ny nz : Z) (dx dy dz : R) (b : list R) :
  (forall i j k, in_grid nx ny nz i j k ->
                 0 <= idx i j k < Z.of_nat (length b)) ->
  exists b', rhs_init forcing idx nx ny nz dx dy dz b = Some b'
             /\ length b' = length b.
Proof.
  pose proof (store_access idx
                (fun i j k => forcing (IZR i * dx) (IZR j * dy) (IZR k * dz))%R)
    as [Hruns Hsome].
  intros Hr. exact (grid_runs idx _ nx ny nz Hruns Hsome b Hr).
Qed.

Lemma rhs_fold_runs (idx : Z -> Z -> Z -> Z) (vb : R) (nx ny : Z)
    (dx dy : R) (b : list R) :
  (forall i j, 0 <= i < nx -> 0 <= j < ny ->
               0 <= idx i j 0 < Z.of_nat (length b)) ->
  exists b', rhs_fold idx vb nx ny dx dy b = Some b' /\ length b' = length b.
Proof.
  pose proof (subtract_access idx
                (fun i j _ => vb * g_0 (IZR i * dx) (IZR j * dy))%R)
    as [Hruns Hsome].
  intros Hr. exact (plane_runs idx _ nx ny Hruns Hsome 0 b Hr).
Qed.

(** X9. The loops that initialise the right-hand side complete exactly
    when [index_c] sends every grid point into the array; else they
    leave the array, and the run is lost. *)
Theorem rhs_init_in_bounds (forcing : R -> R -> R -> R)
    (idx : Z -> Z -> Z -> Z) (nx ny nz : Z) (dx dy dz : R) (b : list R) :
  (exists b', rhs_init forcing idx nx ny nz dx dy dz b = Some b') <->
  (forall i j k, in_grid nx ny nz i j k ->
                 0 <= idx i j k < Z.of_nat (length b)).
Proof.
  pose proof (store_access idx
                (fun i j k => forcing (IZR i * dx) (IZR j * dy) (IZR k * dz))%R)
    as [Hruns Hsome].
  split.
  - intros [b' Hrun] i j k (Hi & Hj & Hk).
    destruct (grid_access idx _ nx ny nz Hsome b b' Hrun) as [_ Hr].
    apply Hr; assumption.
  - intros Hr.
    destruct (grid_runs idx _ nx ny nz Hruns Hsome b Hr) as (b' & Hrun & _).
    exists b'. exact Hrun.
Qed.

Lemma rhs_init_in_bounds_witness :
  exists b', rhs_init f (fun i j k => (k * 3 + j) * 3 + i) 3 3 3
               (spacing 3) (spacing 3) (spacing 3) (replicate 27 0%R) = Some b'.
Proof.
  apply (rhs_init_in_bounds f (fun i j k => (k * 3 + j) * 3 + i) 3 3 3
           (spacing 3) (spacing 3) (spacing 3) (replicate 27 0%R)).
  intros i j k (Hi & Hj & Hk). rewrite length_replicate. lia.
Defined.

(** X10. The loops of the boundary condition complete exactly when
    [index_c] sends every point of the layer [k = 0] into the array. *)
Theorem rhs_fold_in_bounds (idx : Z -> Z -> Z -> Z) (vb : R) (nx ny : Z)
    (dx dy : R) (b : list R) :
  (exists b', rhs_fold idx vb nx ny dx dy b = Some b') <->
  (forall i j, 0 <= i < nx -> 0 <= j < ny ->
               0 <= idx i j 0 < Z.of_nat (length b)).
Proof.
  pose proof (subtract_access idx
                (fun i j _ => vb * g_0 (IZR i * dx) (IZR j * dy))%R)
    as [Hruns Hsome].
  split.
  - intros [b' Hrun] i j Hi Hj.
    destruct (plane_access idx _ nx ny Hsome 0 b b' Hrun) as [_ Hr].
    apply Hr; assumption.
  - intros Hr.
    destruct (plane_runs idx _ nx ny Hruns Hsome 0 b Hr) as (b' & Hrun & _).
    exists b'. exact Hrun.
Qed.

Lemma rhs_fold_in_bounds_witness :
  exists b', rhs_fold (fun i j k => (k * 3 + j) * 3 + i) 2 3 3
               (spacing 3) (spacing 3) (replicate 9 0%R) = Some b'.
Proof.
  apply (rhs_fold_in_bounds (fun i j k => (k * 3 + j) * 3 + i) 2 3 3
           (spacing 3) (spacing 3) (replicate 9 0%R)).
  intros i j Hi Hj. rewrite length_replicate. lia.
Defined.

(** X11. The loops that initialise the right-hand side keep the length
    of the array and change no cell but those of the grid points. *)
Theorem rhs_init_frame (forcing : R -> R -> R -> R)
    (idx : Z -> Z -> Z -> Z) (nx ny nz : Z) (dx dy dz : R) (b b' : list R) :
  rhs_init forcing idx nx ny nz dx dy dz b = Some b' ->
  length b' = length b /\
  forall c, (forall i j k, in_grid nx ny nz i j k -> idx i j k <> c) ->
            load b' c = load b c.
Proof.
  intros Hrun.
  pose proof (store_access idx
                (fun i j k => forcing (IZR i * dx) (IZR j * dy) (IZR k * dz))%R)
    as [_ Hsome].
  destruct (grid_access idx _ nx ny nz Hsome b b' Hrun) as [Hkeep _].
  exact Hkeep.
Qed.

Lemma rhs_init_frame_witness :
  exists b',
    rhs_init f (fun i j k => (k * 3 + j) * 3 + i) 3 3 3
      (spacing 3) (spacing 3) (spacing 3) (replicate 30 0%R) = Some b' /\
    length b' = 30%nat /\ load b' 28 = Some 0%R.
Proof.
  destruct (rhs_init_runs f (fun i j k => (k * 3 + j) * 3 + i)
              3 3 3 (spacing 3) (spacing 3) (spacing 3)
              (replicate 30 0%R)) as (b' & Hrun & _).
  { intros i j k (Hi & Hj & Hk). rewrite length_replicate. lia. }
  destruct (rhs_init_frame _ _ _ _ _ _ _ _ _ _ Hrun) as [Hlen Hframe].
  exists b'. split; [exact Hrun|]. split; [exact Hlen|].
  rewrite Hframe; [reflexivity|].
  intros i j k (Hi & Hj & Hk). lia.
Defined.

(** X12. The loops of the boundary condition keep the length of the array
    and change no cell but those of the layer [k = 0]. *)
Theorem rhs_fold_frame (idx : Z -> Z -> Z -> Z) (vb : R) (nx ny : Z)
    (dx dy : R) (b b' : list R) :
  rhs_fold idx vb nx ny dx dy b = Some b' ->
  length b' = length b /\
  forall c, (forall i j, 0 <= i < nx -> 0 <= j < ny -> idx i j 0 <> c) ->
            load b' c = load b c.
Proof.
  intros Hrun.
  pose proof (subtract_access idx
                (fun i j _ => vb * g_0 (IZR i * dx) (IZR j * dy))%R)
    as [_ Hsome].
  destruct (plane_access idx _ nx ny Hsome 0 b b' Hrun) as [Hkeep _].
  exact Hkeep.
Qed.

Lemma rhs_fold_frame_witness :
  exists b',
    rhs_fold (fun i j k => (k * 3 + j) * 3 + i) 2 3 3
      (spacing 3) (spacing 3) (replicate 27 5%R) = Some b' /\
    length b' = 27%nat /\ load b' 9 = Some 5%R.
Proof.
  destruct (rhs_fold_runs (fun i j k => (k * 3 + j) * 3 + i) 2
              3 3 (spacing 3) (spacing 3) (replicate 27 5%R))
    as (b' & Hrun & _).
  { intros i j Hi Hj. rewrite length_replicate. lia. }
  destruct (rhs_fold_frame _ _ _ _ _ _ _ _ Hrun) as [Hlen Hframe].
  exists b'. split; [exact Hrun|]. split; [exact Hlen|].
  rewrite Hframe; [reflexivity|].
  intros i j Hi Hj. lia.
Defined.

(** ** The runs of [main], classified *)

Lemma main_solve_on (E : extern) (argv : list string) :
  main E argv
  = (emit MPI_Init ;;;
     g <- grid_size E argv ;;
     let '(nx, ny, nz) := g in
     emit (new_decomp3d nx ny nz) ;;;
     D <- propagate (decomp3d_ctor E nx ny nz) ;;
     report_decomposition (rank E) nx ny nz D ;;;
     ordered_printing (Z.to_nat (nproc E)) 0 (rank E) D ;;;
     solve_on E nx ny nz D).
Proof. reflexivity. Qed.

Lemma prog_pair {A : Type} (p : prog A) : p = (trace p, outcome p).
Proof. destruct p. reflexivity. Qed.

Lemma bind_ret_l {A B : Type} (a : A) (k : A -> prog B) : bind (ret a) k = k a.
Proof. unfold bind, ret. destruct (k a). reflexivity. Qed.

(** A run in which the decomposition is constructed goes through the
    printing and continues with [solve_on]. *)
Lemma main_setup (E : extern) (argv : list string) (nx ny nz : Z)
    (D : decomp3d) :
  grid_size E argv = ([], inr (nx, ny, nz)) ->
  decomp3d_ctor E nx ny nz = Ok D ->
  main E argv
  = (setup_trace E nx ny nz D ++ trace (solve_on E nx ny nz D),
     outcome (solve_on E nx ny nz D)).
Proof.
  intros Hg HD. rewrite (prog_pair (main E argv)). f_equal.
  - rewrite main_solve_on.
    rewrite trace_bind. cbn [emit outcome trace fst snd].
    rewrite trace_bind, Hg. cbn [emit outcome trace fst snd].
    rewrite trace_bind. cbn [emit outcome trace fst snd].
    rewrite trace_bind, HD. cbn [emit outcome trace fst snd propagate ret].
    rewrite trace_bind, report_decomposition_outcome.
    rewrite trace_bind, ordered_printing_outcome.
    unfold setup_trace. cbn [app]. rewrite <- !app_assoc. reflexivity.
  - rewrite main_solve_on.
    rewrite outcome_bind. cbn [emit outcome trace fst snd].
    rewrite outcome_bind, Hg. cbn [emit outcome trace fst snd].
    rewrite outcome_bind. cbn [emit outcome trace fst snd].
    rewrite outcome_bind, HD. cbn [emit outcome trace fst snd propagate ret].
    rewrite outcome_bind, report_decomposition_outcome.
    rewrite outcome_bind, ordered_printing_outcome.
    reflexivity.
Qed.

(** A run in which the constructor of the decomposition throws. *)
Lemma main_decomposition_throws (E : extern) (argv : list string)
    (nx ny nz : Z) (what : string) :
  grid_size E argv = ([], inr (nx, ny, nz)) ->
  decomp3d_ctor E nx ny nz = Throw what ->
  main E argv = ([MPI_Init; new_decomp3d nx ny nz], inl (Uncaught what)).
Proof.
  intros Hg HD. rewrite main_solve_on, Hg.
  unfold emit. cbn [bind ret]. rewrite HD. reflexivity.
Qed.

Lemma new_double_Ok (n : Z) :
  0 <= n -> new_double n = Ok (replicate (Z.to_nat n) 0%R).
Proof.
  intros Hn. unfold new_double. destruct (Z.ltb_spec n 0); [lia|reflexivity].
Qed.

Lemma new_double_Throw (n : Z) :
  n < 0 -> new_double n = Throw "std::bad_array_new_length".
Proof.
  intros Hn. unfold new_double. destruct (Z.ltb_spec n 0); [reflexivity|lia].
Qed.

(** [solve_on], case by case: it stops before the solver is called, or it
    calls the solver once and ends as the solver does. *)
Lemma solve_on_cases (E : extern) (nx ny nz : Z) (D : decomp3d) :
  (exists s, solve_on E nx ny nz D = ([], inl s) /\ forall c, s <> Exit c) \/
  (exists L0 b1 b2,
      laplace3d_stencil nx ny nz = Ok L0 /\
      0 <= n E /\
      rhs_init f (index_c E (set_DD L0 D)) nx ny nz
        (spacing nx) (spacing ny) (spacing nz)
        (replicate (Z.to_nat (n E)) 0%R) = Some b1 /\
      rhs_fold (index_c E (set_DD L0 D)) (value_b L0) nx ny
        (spacing nx) (spacing ny) b1 = Some b2 /\
      let L := set_DD L0 D in
      let x := replicate (Z.to_nat (n E)) 0%R in
      solve_on E nx ny nz D
      = match cg_solver E L (n E) x b2 (sqrt epsilon) 500 with
        | Ok _ =>
            ([call_cg_solver L (n E) x b2 (sqrt epsilon) 500;
              Timer_summarize; MPI_Finalize], inr 0)
        | Throw _ =>
            ([call_cg_solver L (n E) x b2 (sqrt epsilon) 500;
              cerr [Str "Caught an exception in cg_solve: "; Str sliced_what]],
             inl (Exit (-1)))
        end).
Proof.
  unfold solve_on, spacing.
  destruct (laplace3d_stencil nx ny nz) as [L0|what] eqn:HL.
  2: { left. eexists. split; [reflexivity|discriminate]. }
  cbn [propagate]. rewrite bind_ret_l. cbv zeta.
  destruct (Z.lt_ge_cases (n E) 0) as [Hneg|Hn].
  { left. rewrite (new_double_Throw _ Hneg). eexists.
    split; [reflexivity|discriminate]. }
  rewrite (new_double_Ok _ Hn). cbn [propagate]. rewrite !bind_ret_l.
  rewrite !init_fresh. cbn [value_b set_DD].
  destruct (rhs_init f _ nx ny nz _ _ _ _) as [b1|] eqn:Hb1.
  2: { left. eexists. split; [reflexivity|discriminate]. }
  cbn [checked]. rewrite bind_ret_l.
  destruct (rhs_fold _ _ nx ny _ _ b1) as [b2|] eqn:Hb2.
  2: { left. eexists. split; [reflexivity|discriminate]. }
  cbn [checked]. rewrite bind_ret_l.
  right. exists L0, b1, b2. repeat split; try assumption.
  destruct (cg_solver E _ _ _ _ _ _); reflexivity.
Qed.

(** Every run of [main] is of one of four kinds. *)
Lemma main_cases (E : extern) (argv : list string) :
  (main E argv = ([MPI_Init; cerr [Str invalid_arguments]], inl (Exit (-1)))
   /\ exists s, grid_size E argv = ([cerr [Str invalid_arguments]], inl s)) \/
  exists nx ny nz,
    grid_size E argv = ([], inr (nx, ny, nz)) /\
    ((exists what,
         decomp3d_ctor E nx ny nz = Throw what /\
         main E argv
         = ([MPI_Init; new_decomp3d nx ny nz], inl (Uncaught what))) \/
     exists D,
       decomp3d_ctor E nx ny nz = Ok D /\
       ((exists s,
            main E argv = (setup_trace E nx ny nz D, inl s) /\
            forall c, s <> Exit c) \/
        exists L0 b1 b2,
          laplace3d_stencil nx ny nz = Ok L0 /\
          0 <= n E /\
          rhs_init f (index_c E (set_DD L0 D)) nx ny nz
            (spacing nx) (spacing ny) (spacing nz)
            (replicate (Z.to_nat (n E)) 0%R) = Some b1 /\
          rhs_fold (index_c E (set_DD L0 D)) (value_b L0) nx ny
            (spacing nx) (spacing ny) b1 = Some b2 /\
          let L := set_DD L0 D in
          let x := replicate (Z.to_nat (n E)) 0%R in
          main E argv
          = match cg_solver E L (n E) x b2 (sqrt epsilon) 500 with
            | Ok _ =>
                (setup_trace E nx ny nz D
                 ++ [call_cg_solver L (n E) x b2 (sqrt epsilon) 500;
                     Timer_summarize; MPI_Finalize], inr 0)
            | Throw _ =>
                (setup_trace E nx ny nz D
                 ++ [call_cg_solver L (n E) x b2 (sqrt epsilon) 500;
                     cerr [Str "Caught an exception in cg_solve: ";
                           Str sliced_what]],
                 inl (Exit (-1)))
            end)).
Proof.
  destruct (grid_size_cases E argv) as [[[[nx ny] nz] Hg]|(H1 & H2 & H4 & Hg)].
  2: { left. split; [apply main_bad_arguments; assumption|].
       eexists. exact Hg. }
  right. exists nx, ny, nz. split; [exact Hg|].
  destruct (decomp3d_ctor E nx ny nz) as [D|what] eqn:HD.
  2: { left. exists what. split; [reflexivity|].
       apply main_decomposition_throws; assumption. }
  right. exists D. split; [reflexivity|].
  rewrite (main_setup E argv nx ny nz D Hg HD).
  destruct (solve_on_cases E nx ny nz D)
    as [(s & Hs & Hne)|(L0 & b1 & b2 & HL & Hn & Hb1 & Hb2 & Hrun)].
  - left. exists s. rewrite Hs. cbn [trace outcome fst snd].
    rewrite app_nil_r. split; [reflexivity|exact Hne].
  - right. exists L0, b1, b2. repeat split; try assumption.
    cbv zeta in Hrun |- *. rewrite Hrun.
    destruct (cg_solver E _ _ _ _ _ _); reflexivity.
Qed.

(** ** Counting events *)

Lemma count_events_app (p : event -> bool) (t u : list event) :
  count_events p (t ++ u) = (count_events p t + count_events p u)%nat.
Proof. unfold count_events. rewrite List.filter_app. apply length_app. Qed.

Lemma count_events_none (p : event -> bool) (t : list event) :
  Forall (fun e => p e = false) t -> count_events p t = 0%nat.
Proof.
  unfold count_events. induction 1 as [|e t He _ IH]; [reflexivity|].
  simpl. rewrite He. exact IH.
Qed.

Lemma report_decomposition_count (p : event -> bool) (rank nx ny nz : Z)
    (D : decomp3d) :
  (forall line, p (cout line) = false) ->
  count_events p (trace (report_decomposition rank nx ny nz D)) = 0%nat.
Proof.
  intros Hc. unfold report_decomposition, count_events.
  destruct (rank =? 0); simpl; [|reflexivity].
  rewrite !Hc. reflexivity.
Qed.

Lemma ordered_printing_count (p : event -> bool) (D : decomp3d) (rank : Z)
    (count : nat) :
  (forall line, p (cout line) = false) ->
  forall from,
    count_events p (trace (ordered_printing count from rank D))
    = if p MPI_Barrier then count else 0%nat.
Proof.
  intros Hc. induction count as [|c IH]; intros from.
  - destruct (p MPI_Barrier); reflexivity.
  - rewrite ordered_printing_round.
    destruct (rank =? from).
    + rewrite !trace_bind. cbn [emit ret outcome trace fst snd].
      rewrite !count_events_app, IH. unfold count_events. simpl.
      rewrite Hc. destruct (p MPI_Barrier); reflexivity.
    + rewrite !trace_bind. cbn [emit ret outcome trace fst snd].
      rewrite !count_events_app, IH. unfold count_events. simpl.
      destruct (p MPI_Barrier); reflexivity.
Qed.

(** The events of the set-up, counted: [MPI_Init], the construction of
    the decomposition, the lines printed and the barriers. *)
Lemma setup_trace_count (p : event -> bool) (E : extern) (nx ny nz : Z)
    (D : decomp3d) :
  (forall line, p (cout line) = false) ->
  count_events p (setup_trace E nx ny nz D)
  = ((if p MPI_Init then 1 else 0)
     + (if p (new_decomp3d nx ny nz) then 1 else 0)
     + (if p MPI_Barrier then Z.to_nat (nproc E) else 0))%nat.
Proof.
  intros Hc. unfold setup_trace.
  rewrite !count_events_app, report_decomposition_count by exact Hc.
  rewrite (ordered_printing_count p D (rank E) _ Hc).
  unfold count_events. simpl.
  destruct (p MPI_Init), (p (new_decomp3d nx ny nz)); simpl; lia.
Qed.

Lemma ordered_printing_lines (D : decomp3d) (rank : Z) (count : nat) :
  forall from,
    count_events is_cout (trace (ordered_printing count from rank D))
    = if (from <=? rank) && (rank <? from + Z.of_nat count)
      then 1%nat else 0%nat.
Proof.
  induction count as [|c IH]; intros from.
  - change (Z.of_nat 0) with 0. cbn [ordered_printing ret trace fst].
    destruct (Z.leb_spec from rank), (Z.ltb_spec rank (from + 0));
      simpl; try reflexivity; lia.
  - rewrite ordered_printing_round.
    destruct (Z.eqb_spec rank from) as [->|Hne].
    + rewrite !trace_bind. cbn [emit ret outcome trace fst snd].
      rewrite !count_events_app, IH. unfold count_events at 1 2. simpl.
      destruct (Z.leb_spec (from + 1) from); [lia|].
      destruct (Z.leb_spec from from); [|lia].
      destruct (Z.ltb_spec from (from + Z.of_nat (Datatypes.S c))); [|lia].
      reflexivity.
    + rewrite !trace_bind. cbn [emit ret outcome trace fst snd].
      rewrite !count_events_app, IH. unfold count_events at 1 2. simpl.
      destruct (Z.leb_spec (from + 1) rank),
        (Z.ltb_spec rank (from + 1 + Z.of_nat c)),
        (Z.leb_spec from rank),
        (Z.ltb_spec rank (from + Z.of_nat (Datatypes.S c)));
        simpl; try reflexivity; lia.
Qed.

(** ** The order and the number of the calls of [main] *)

(** X13. The ordered printing issues one barrier for each of the [nproc]
    processes, whatever the rank of the caller, and prints the line of
    the local grid once if [0 <= rank < nproc] and not at all
    otherwise. *)
Theorem ordered_printing_counts (D : decomp3d) (rank nproc : Z) :
  count_events is_barrier
    (trace (ordered_printing (Z.to_nat nproc) 0 rank D)) = Z.to_nat nproc /\
  count_events is_cout
    (trace (ordered_printing (Z.to_nat nproc) 0 rank D))
  = (if (0 <=? rank) && (rank <? nproc) then 1%nat else 0%nat) /\
  outcome (ordered_printing (Z.to_nat nproc) 0 rank D) = inr tt.
Proof.
  split; [|split].
  - apply (ordered_printing_count is_barrier). reflexivity.
  - rewrite ordered_printing_lines.
    destruct (Z.leb_spec 0 rank); simpl; [|reflexivity].
    destruct (Z.ltb_spec rank (0 + Z.of_nat (Z.to_nat nproc))),
      (Z.ltb_spec rank nproc); try reflexivity; lia.
  - apply ordered_printing_outcome.
Qed.

(** X14. Every run of [main] begins with [MPI_Init] and calls it once. *)
Theorem mpi_init_first_and_once (E : extern) (argv : list string) :
  (exists rest, trace (main E argv) = MPI_Init :: rest) /\
  count_events is_init (trace (main E argv)) = 1%nat.
Proof.
  destruct (main_cases E argv)
    as [[-> _]|(nx & ny & nz & Hg &
                [(what & _ & ->)|(D & HD & [(s & -> & _)|
                   (L0 & b1 & b2 & _ & _ & _ & _ & Hrun)])])].
  - split; [eexists; reflexivity|reflexivity].
  - split; [eexists; reflexivity|reflexivity].
  - cbn [trace fst]. split; [eexists; reflexivity|].
    rewrite setup_trace_count by reflexivity. reflexivity.
  - cbv zeta in Hrun. rewrite Hrun.
    destruct (cg_solver E _ _ _ _ _ _); cbn [trace fst];
      (split; [eexists; reflexivity|]);
      rewrite count_events_app, setup_trace_count by reflexivity;
      reflexivity.
Qed.

(** X15. The number of barriers of a run does not depend on the rank: it
    is [nproc] when the decomposition has been constructed, whatever
    happens afterwards, and zero when the run ends before. *)
Theorem barrier_count (E : extern) (argv : list string) :
  count_events is_barrier (trace (main E argv))
  = match outcome (grid_size E argv) with
    | inr (nx, ny, nz) =>
        match decomp3d_ctor E nx ny nz with
        | Ok _ => Z.to_nat (nproc E)
        | Throw _ => 0%nat
        end
    | inl _ => 0%nat
    end.
Proof.
  destruct (main_cases E argv)
    as [[-> [s' Hg]]|(nx & ny & nz & Hg &
                [(what & HD & ->)|(D & HD & [(s & -> & _)|
                   (L0 & b1 & b2 & _ & _ & _ & _ & Hrun)])])];
    rewrite Hg; cbn [outcome snd]; try rewrite HD.
  - reflexivity.
  - reflexivity.
  - cbn [trace fst]. rewrite setup_trace_count by reflexivity. reflexivity.
  - cbv zeta in Hrun. rewrite Hrun.
    destruct (cg_solver E _ _ _ _ _ _); cbn [trace fst];
      rewrite count_events_app, setup_trace_count by reflexivity;
      unfold count_events; simpl; lia.
Qed.

Lemma setup_trace_events (E : extern) (nx ny nz : Z) (D : decomp3d) :
  Forall (fun e => is_solve e = false /\ e <> MPI_Finalize
                   /\ e <> Timer_summarize /\ forall line, e <> cerr line)
    (setup_trace E nx ny nz D).
Proof.
  unfold setup_trace.
  repeat (constructor; [repeat split; discriminate|]).
  apply printing_trace; repeat split; discriminate.
Qed.

Lemma setup_trace_no_solver (E : extern) (nx ny nz : Z) (D : decomp3d)
    (L : stencil3d) (n0 : Z) (x b : list R) (tol : R) (maxIter : Z) :
  ~ In (call_cg_solver L n0 x b tol maxIter) (setup_trace E nx ny nz D).
Proof.
  intros Hin. pose proof (setup_trace_events E nx ny nz D) as Hall.
  rewrite Forall_forall in Hall. apply list_elem_of_In in Hin.
  destruct (Hall _ Hin) as [Hs _]. discriminate.
Qed.

(** A call of the solver in a run tells all that came before it. *)
Lemma main_solver_call (E : extern) (argv : list string) (L : stencil3d)
    (n0 : Z) (x b : list R) (tol : R) (maxIter : Z) :
  In (call_cg_solver L n0 x b tol maxIter) (trace (main E argv)) ->
  exists nx ny nz D L0 b1,
    grid_size E argv = ([], inr (nx, ny, nz)) /\
    decomp3d_ctor E nx ny nz = Ok D /\
    laplace3d_stencil nx ny nz = Ok L0 /\
    0 <= n E /\
    rhs_init f (index_c E (set_DD L0 D)) nx ny nz
      (spacing nx) (spacing ny) (spacing nz)
      (replicate (Z.to_nat (n E)) 0%R) = Some b1 /\
    rhs_fold (index_c E (set_DD L0 D)) (value_b L0) nx ny
      (spacing nx) (spacing ny) b1 = Some b /\
    L = set_DD L0 D /\ n0 = n E /\ x = replicate (Z.to_nat (n E)) 0%R /\
    tol = sqrt epsilon /\ maxIter = 500 /\
    main E argv
    = match cg_solver E L n0 x b tol maxIter with
      | Ok _ =>
          (setup_trace E nx ny nz D
           ++ [call_cg_solver L n0 x b tol maxIter;
               Timer_summarize; MPI_Finalize], inr 0)
      | Throw _ =>
          (setup_trace E nx ny nz D
           ++ [call_cg_solver L n0 x b tol maxIter;
               cerr [Str "Caught an exception in cg_solve: ";
                     Str sliced_what]],
           inl (Exit (-1)))
      end.
Proof.
  intros Hin.
  destruct (main_cases E argv)
    as [[Hrun _]|(nx & ny & nz & Hg &
                [(what & _ & Hrun)|(D & HD & [(s & Hrun & _)|
                   (L0 & b1 & b2 & HL & Hn & Hb1 & Hb2 & Hrun)])])].
  - rewrite Hrun in Hin. simpl in Hin. destruct Hin as [H|[H|[]]]; discriminate.
  - rewrite Hrun in Hin. simpl in Hin. destruct Hin as [H|[H|[]]]; discriminate.
  - rewrite Hrun in Hin. cbn [trace fst] in Hin.
    exfalso. exact (setup_trace_no_solver _ _ _ _ _ _ _ _ _ _ _ Hin).
  - cbv zeta in Hrun.
    assert (Hcall : call_cg_solver L n0 x b tol maxIter
                    = call_cg_solver (set_DD L0 D) (n E)
                        (replicate (Z.to_nat (n E)) 0%R) b2 (sqrt epsilon) 500).
    { rewrite Hrun in Hin.
      destruct (cg_solver E _ _ _ _ _ _); cbn [trace fst] in Hin;
        apply in_app_or in Hin as [Hin|Hin];
        try (exfalso; exact (setup_trace_no_solver _ _ _ _ _ _ _ _ _ _ _ Hin));
        simpl in Hin.
      - destruct Hin as [H|[H|[H|[]]]]; try discriminate. symmetry. exact H.
      - destruct Hin as [H|[H|[]]]; try discriminate. symmetry. exact H. }
    injection Hcall as -> -> -> -> -> ->.
    exists nx, ny, nz, D, L0, b1. repeat split; try assumption.
Qed.

(** The set-up of a run on one process succeeds on every grid with at
    least three points on each axis. *)
Lemma one_process_setup (E : extern) (nx ny nz : Z) :
  index_c E = Sequential.index_c ->
  n E = nx * ny * nz ->
  3 <= nx -> 3 <= ny -> 3 <= nz ->
  let D := mk_decomp3d 1 1 1 nx ny nz in
  exists L0 b1 b2,
    laplace3d_stencil nx ny nz = Ok L0 /\
    0 <= n E /\
    rhs_init f (index_c E (set_DD L0 D)) nx ny nz
      (spacing nx) (spacing ny) (spacing nz)
      (replicate (Z.to_nat (n E)) 0%R) = Some b1 /\
    rhs_fold (index_c E (set_DD L0 D)) (value_b L0) nx ny
      (spacing nx) (spacing ny) b1 = Some b2.
Proof.
  intros Hidx HnE Hx Hy Hz D.
  pose proof (laplace3d_stencil_large nx ny nz Hx Hy Hz) as HL.
  set (L0 := mk_stencil3d _ _ _ _ _ _ _ _ _ _ _) in HL.
  assert (Hn : 0 <= n E) by (rewrite HnE; nia).
  destruct (rhs_built (index_c E (set_DD L0 D)) (value_b L0) nx ny nz
              (spacing nx) (spacing ny) (spacing nz)
              (replicate (Z.to_nat (n E)) 0%R))
    as (b1 & b2 & Hb1 & Hb2 & _).
  { rewrite length_replicate, Z2Nat.id by exact Hn. rewrite Hidx, HnE.
    apply (sequential_indexing _ 1 1 1). reflexivity. }
  { lia. }
  exists L0, b1, b2. repeat split; assumption.
Qed.

Lemma laplace3d_stencil_size (mx my mz : Z) (L : stencil3d) :
  laplace3d_stencil mx my mz = Ok L -> nx L = mx /\ ny L = my /\ nz L = mz.
Proof.
  unfold laplace3d_stencil.
  destruct ((mx <=? 2) || (my <=? 2) || (mz <=? 2)); [discriminate|].
  intros [= <-]. repeat split.
Qed.

Lemma one_process_call (E : extern) (argv : list string) :
  index_c E = Sequential.index_c ->
  decomp3d_ctor E = Sequential.decomp3d_ctor ->
  n E = 3 * 3 * 3 ->
  grid_size E argv = ([], inr (3, 3, 3)) ->
  exists L0 b,
    let L := set_DD L0 (mk_decomp3d 1 1 1 3 3 3) in
    laplace3d_stencil 3 3 3 = Ok L0 /\
    In (call_cg_solver L (n E) (replicate (Z.to_nat (n E)) 0%R) b
          (sqrt epsilon) 500) (trace (main E argv)).
Proof.
  intros Hidx Hctor HnE Hg.
  destruct (one_process_setup E 3 3 3 Hidx HnE)
    as (L0 & b1 & b2 & HL & Hn & Hb1 & Hb2); [lia..|].
  assert (HD : decomp3d_ctor E 3 3 3 = Ok (mk_decomp3d 1 1 1 3 3 3))
    by (rewrite Hctor; reflexivity).
  destruct (main_run E argv 3 3 3 _ L0 b1 b2 Hg HD HL Hn Hb1 Hb2) as [Ht _].
  exists L0, b2. split; [exact HL|].
  cbv zeta in Ht. rewrite Ht.
  apply in_or_app. right. apply in_or_app. right. apply in_or_app. right.
  left. reflexivity.
Qed.

(** X16. Whenever [main] calls the solver, the vector size is the [n] of
    the driver, the initial guess is the zero vector of that length, the
    grid has at least three points on each axis, and the stencil is that
    of [laplace3d_stencil] for the grid, with the decomposition that the
    constructor has returned for the same grid. *)
Theorem solver_call_arguments (E : extern) (argv : list string)
    (L : stencil3d) (n0 : Z) (x b : list R) (tol : R) (maxIter : Z) :
  In (call_cg_solver L n0 x b tol maxIter) (trace (main E argv)) ->
  n0 = n E /\ 0 <= n0 /\
  x = replicate (Z.to_nat n0) 0%R /\
  grid_size E argv = ([], inr (nx L, ny L, nz L)) /\
  3 <= nx L /\ 3 <= ny L /\ 3 <= nz L /\
  exists D L0,
    decomp3d_ctor E (nx L) (ny L) (nz L) = Ok D /\
    laplace3d_stencil (nx L) (ny L) (nz L) = Ok L0 /\
    L = set_DD L0 D.
Proof.
  intros Hin.
  destruct (main_solver_call _ _ _ _ _ _ _ _ Hin)
    as (mx & my & mz & D & L0 & b1 & Hg & HD & HL & Hn & _ & _
        & -> & -> & -> & _).
  destruct (laplace3d_stencil_size _ _ _ _ HL) as (Hx & Hy & Hz).
  destruct (laplace3d_stencil_Ok _ _ _ _ HL) as (H3x & H3y & H3z & _).
  cbn [nx ny nz set_DD]. rewrite Hx, Hy, Hz.
  repeat split; try assumption.
  exists D, L0. repeat split; assumption.
Qed.

Lemma solver_call_arguments_witness :
  exists L b,
    In (call_cg_solver L 27 (replicate 27 0%R) b (sqrt epsilon) 500)
      (trace (main (Sequential.env (3 * 3 * 3))
                ["main_cg_poisson"; "3"]%string)) /\
    3 <= nx L.
Proof.
  destruct (one_process_call (Sequential.env (3 * 3 * 3))
              ["main_cg_poisson"; "3"]%string eq_refl eq_refl eq_refl
              sequential_grid_3) as (L0 & b & _ & Hin).
  exists (set_DD L0 (mk_decomp3d 1 1 1 3 3 3)), b.
  split; [exact Hin|].
  destruct (solver_call_arguments _ _ _ _ _ _ _ _ Hin)
    as (_ & _ & _ & _ & Hx & _).
  exact Hx.
Defined.

(** X17. No run of [main] calls the solver more than once. *)
Theorem solver_called_at_most_once (E : extern) (argv : list string) :
  (count_events is_solve (trace (main E argv)) <= 1)%nat.
Proof.
  destruct (main_cases E argv)
    as [[-> _]|(nx & ny & nz & Hg &
                [(what & _ & ->)|(D & HD & [(s & -> & _)|
                   (L0 & b1 & b2 & _ & _ & _ & _ & Hrun)])])].
  - unfold count_events. simpl. lia.
  - unfold count_events. simpl. lia.
  - cbn [trace fst]. rewrite setup_trace_count by reflexivity. simpl. lia.
  - cbv zeta in Hrun. rewrite Hrun.
    destruct (cg_solver E _ _ _ _ _ _); cbn [trace fst];
      rewrite count_events_app, setup_trace_count by reflexivity;
      unfold count_events; simpl; lia.
Qed.

(** X18. The right-hand side that [main] hands to the solver holds, for
    every grid point, the forcing term at the point if [k > 0] and the
    boundary term [- value_b * g_0(i*dx, j*dy)] if [k = 0], provided
    [index_c] gives every grid point a cell of its own among the [n]
    cells. *)
Theorem solver_right_hand_side (E : extern) (argv : list string)
    (L : stencil3d) (n0 : Z) (x b : list R) (tol : R) (maxIter : Z) :
  In (call_cg_solver L n0 x b tol maxIter) (trace (main E argv)) ->
  indexing (index_c E L) (nx L) (ny L) (nz L) n0 ->
  forall i j k, in_grid (nx L) (ny L) (nz L) i j k ->
    load b (index_c E L i j k)
    = Some (if k =? 0
            then - (value_b L * g_0 (IZR i * spacing (nx L))
                                    (IZR j * spacing (ny L)))
            else f (IZR i * spacing (nx L)) (IZR j * spacing (ny L))
                   (IZR k * spacing (nz L)))%R.
Proof.
  intros Hin Hidx i j k Hg.
  destruct (main_solver_call _ _ _ _ _ _ _ _ Hin)
    as (mx & my & mz & D & L0 & b1 & _ & _ & HL & Hn & Hb1 & Hb2
        & -> & -> & _).
  destruct (laplace3d_stencil_size _ _ _ _ HL) as (Hx & Hy & Hz).
  destruct (laplace3d_stencil_Ok _ _ _ _ HL) as (_ & _ & H3z & _).
  cbn [nx ny nz value_b set_DD] in *. rewrite Hx, Hy, Hz in *.
  destruct (rhs_built (index_c E (set_DD L0 D)) (value_b L0) mx my mz
              (spacing mx) (spacing my) (spacing mz)
              (replicate (Z.to_nat (n E)) 0%R))
    as (c1 & c2 & Hc1 & Hc2 & Hcells & Hface & Hrest).
  { rewrite length_replicate, Z2Nat.id by exact Hn. exact Hidx. }
  { lia. }
  rewrite Hb1 in Hc1. injection Hc1 as <-.
  rewrite Hb2 in Hc2. injection Hc2 as <-.
  destruct (Z.eqb_spec k 0) as [->|Hk].
  - destruct Hg as (Hi & Hj & _). rewrite (Hface i j Hi Hj). f_equal.
    rewrite Rmult_0_l, f_bottom. ring.
  - rewrite Hrest; [apply Hcells; exact Hg|exact Hg|].
    destruct Hg as (_ & _ & Hk'). lia.
Qed.

Lemma solver_right_hand_side_witness :
  exists L b,
    In (call_cg_solver L 27 (replicate 27 0%R) b (sqrt epsilon) 500)
      (trace (main (Sequential.env (3 * 3 * 3))
                ["main_cg_poisson"; "3"]%string)) /\
    load b (Sequential.index_c L 1 1 1)
    = Some (f (IZR 1 * spacing (nx L)) (IZR 1 * spacing (ny L))
              (IZR 1 * spacing (nz L)))%R.
Proof.
  destruct (one_process_call (Sequential.env (3 * 3 * 3))
              ["main_cg_poisson"; "3"]%string eq_refl eq_refl eq_refl
              sequential_grid_3) as (L0 & b & HL & Hin).
  exists (set_DD L0 (mk_decomp3d 1 1 1 3 3 3)), b.
  split; [exact Hin|].
  destruct (laplace3d_stencil_size _ _ _ _ HL) as (Hx & Hy & Hz).
  apply (solver_right_hand_side _ _ _ _ _ _ _ _ Hin).
  - cbn [nx ny nz set_DD]. rewrite Hx, Hy, Hz.
    apply (sequential_indexing _ 1 1 1 3 3 3). reflexivity.
  - cbn [nx ny nz set_DD]. rewrite Hx, Hy, Hz. unfold in_grid. lia.
Defined.

(** X19. A run that ends otherwise than by [return] calls neither
    [Timer::summarize] nor [MPI_Finalize]; a run in which [main] returns
    returns 0, and the solver has been called and has returned. *)
Theorem run_ends (E : extern) (argv : list string) :
  (forall s, outcome (main E argv) = inl s ->
     ~ In MPI_Finalize (trace (main E argv)) /\
     ~ In Timer_summarize (trace (main E argv))) /\
  (forall code, outcome (main E argv) = inr code ->
     code = 0 /\
     exists L x b sol,
       In (call_cg_solver L (n E) x b (sqrt epsilon) 500)
         (trace (main E argv)) /\
       cg_solver E L (n E) x b (sqrt epsilon) 500 = Ok sol).
Proof.
  assert (Hsetup : forall nx ny nz D,
             ~ In MPI_Finalize (setup_trace E nx ny nz D) /\
             ~ In Timer_summarize (setup_trace E nx ny nz D)).
  { intros nx ny nz D.
    pose proof (setup_trace_events E nx ny nz D) as Hall.
    rewrite Forall_forall in Hall.
    split; intros Hin; apply list_elem_of_In in Hin;
      destruct (Hall _ Hin) as (_ & Hf & Ht & _); congruence. }
  destruct (main_cases E argv)
    as [[-> _]|(nx & ny & nz & Hg &
                [(what & _ & ->)|(D & HD & [(s & -> & _)|
                   (L0 & b1 & b2 & _ & _ & _ & _ & Hrun)])])].
  - split; [|discriminate]. intros s _.
    split; simpl; intros [H|[H|[]]]; discriminate.
  - split; [|discriminate]. intros s _.
    split; simpl; intros [H|[H|[]]]; discriminate.
  - split; [|discriminate]. intros s' _. apply Hsetup.
  - cbv zeta in Hrun. rewrite Hrun.
    destruct (cg_solver E _ _ _ _ _ _) as [sol|what] eqn:Hsol;
      cbn [trace outcome fst snd].
    + split; [discriminate|]. intros code [= <-]. split; [reflexivity|].
      exists (set_DD L0 D), (replicate (Z.to_nat (n E)) 0%R), b2, sol.
      split; [|exact Hsol]. apply in_or_app. right. left. reflexivity.
    + split; [|discriminate]. intros s _.
      destruct (Hsetup nx ny nz D) as [Hf Ht].
      split; intros Hin; apply in_app_or in Hin as [Hin|Hin];
        try contradiction; simpl in Hin;
        destruct Hin as [H|[H|[]]]; discriminate.
Qed.

Lemma run_ends_witness :
  exists L x b,
    In (call_cg_solver L 27 x b (sqrt epsilon) 500)
      (trace (main (Sequential.env (3 * 3 * 3))
                ["main_cg_poisson"; "3"]%string)) /\
    ~ In MPI_Finalize
        (trace (main (Sequential.env (2 * 2 * 2))
                  ["main_cg_poisson"; "2"]%string)).
Proof.
  destruct (run_ends (Sequential.env (3 * 3 * 3))
              ["main_cg_poisson"; "3"]%string) as [_ Hret].
  destruct (sequential_run ["main_cg_poisson"; "3"]%string 3 3 3
              sequential_grid_3) as (L' & x' & b' & pre & _ & Ho); [lia..|].
  destruct (Hret 0 Ho) as (_ & L & x & b & sol & Hin & _).
  exists L, x, b. split; [exact Hin|].
  destruct (run_ends (Sequential.env (2 * 2 * 2))
              ["main_cg_poisson"; "2"]%string) as [Hstop _].
  apply (Hstop (Uncaught stencil_too_small)).
  rewrite (main_setup _ _ 2 2 2 (mk_decomp3d 1 1 1 2 2 2) sequential_grid_2 eq_refl).
  reflexivity.
Defined.

(** X20. When the solver throws, the run reports it on [cerr] right
    after the call and exits with -1. *)
Theorem solver_exception_run (E : extern) (argv : list string)
    (L : stencil3d) (n0 : Z) (x b : list R) (tol : R) (maxIter : Z)
    (what : string) :
  In (call_cg_solver L n0 x b tol maxIter) (trace (main E argv)) ->
  cg_solver E L n0 x b tol maxIter = Throw what ->
  outcome (main E argv) = inl (Exit (-1)) /\
  exists pre line,
    trace (main E argv)
    = pre ++ [call_cg_solver L n0 x b tol maxIter; cerr line].
Proof.
  intros Hin Hthrow.
  destruct (main_solver_call _ _ _ _ _ _ _ _ Hin)
    as (mx & my & mz & D & L0 & b1 & _ & _ & _ & _ & _ & _
        & _ & _ & _ & _ & _ & Hrun).
  rewrite Hthrow in Hrun. rewrite Hrun.
  split; [reflexivity|]. eexists. eexists. reflexivity.
Qed.

Lemma solver_exception_run_witness :
  outcome (main (env_solver_throws (3 * 3 * 3))
             ["main_cg_poisson"; "3"]%string) = inl (Exit (-1)).
Proof.
  destruct (one_process_call (env_solver_throws (3 * 3 * 3))
              ["main_cg_poisson"; "3"]%string eq_refl eq_refl eq_refl
              eq_refl) as (L0 & b & _ & Hin).
  apply (solver_exception_run _ _ _ _ _ _ _ _ "no convergence" Hin).
  reflexivity.
Defined.

(** X21. When the constructor of the decomposition throws, the run ends
    there with the uncaught exception: after [MPI_Init] and the call of
    the constructor nothing is printed and nothing else is called. *)
Theorem decomposition_failure_run (E : extern) (argv : list string)
    (mx my mz : Z) (what : string) :
  grid_size E argv = ([], inr (mx, my, mz)) ->
  decomp3d_ctor E mx my mz = Throw what ->
  main E argv = ([MPI_Init; new_decomp3d mx my mz], inl (Uncaught what)).
Proof. apply main_decomposition_throws. Qed.

Lemma decomposition_failure_run_witness :
  main (env_decomp_throws 27) ["main_cg_poisson"; "3"]%string
  = ([MPI_Init; new_decomp3d 3 3 3],
     inl (Uncaught "cannot distribute the grid")).
Proof.
  apply (decomposition_failure_run (env_decomp_throws 27)
           ["main_cg_poisson"; "3"]%string 3 3 3); reflexivity.
Defined.

(** X22. The grid that [main] works with has a negative [ny] or [nz] only
    if it is equal to [nx]: for [nx >= 0] no axis is negative. *)
Theorem grid_size_signs (E : extern) (argv : list string) (t : list event)
    (mx my mz : Z) :
  grid_size E argv = (t, inr (mx, my, mz)) ->
  t = [] /\ (my < 0 -> my = mx) /\ (mz < 0 -> mz = mx) /\
  (0 <= mx -> 0 <= my /\ 0 <= mz).
Proof.
  unfold grid_size. intros Hg.
  destruct (read_arguments_cases E argv) as [[[[ax ay] az] Hr]|(_ & _ & _ & Hr)];
    rewrite Hr in Hg; [|discriminate].
  cbn in Hg. injection Hg as <- <- <- <-.
  split; [reflexivity|].
  destruct (Z.ltb_spec ay 0), (Z.ltb_spec az 0); repeat split; lia.
Qed.

Lemma grid_size_signs_witness :
  grid_size (Sequential.env 27) ["main_cg_poisson"; "6"; "-1"; "4"]%string
  = ([], inr (6, 6, 4)) /\ 0 <= 6 /\ 0 <= 4.
Proof.
  assert (Hg : grid_size (Sequential.env 27)
                 ["main_cg_poisson"; "6"; "-1"; "4"]%string
               = ([], inr (6, 6, 4))) by reflexivity.
  split; [exact Hg|].
  destruct (grid_size_signs _ _ _ _ _ _ Hg) as (_ & _ & _ & Hpos).
  apply Hpos. lia.
Defined.
